(** * domPanZoom: the pan/zoom geometry and the gesture handlers

    A shallow embedding of [src/core/domPanZoom.js].  The class keeps a
    mutable [(zoom, x, y)] triple, the option object and a few gesture
    caches; every method below is a function from the instance before the
    call to the instance after it.

    Numbers.  A JavaScript number is modelled by [num]: an exact rational,
    one of the two infinities, or NaN.  Arithmetic on finite values is exact:
    the rounding and the overflow of binary64 are not modelled.  The
    non-finite values follow IEEE-754 as JavaScript does: a non-zero value
    divided by zero is an infinity, [0/0] and [Infinity - Infinity] are NaN,
    every comparison with NaN is false.  The two signed zeros are
    identified; a zero divisor counts as [+0], which is what [clientWidth]
    and [clientHeight] produce.

    The statements of the theorems are chosen to survive rounding: they
    follow the comparisons and the order of operations of the code and
    claim no identity that rounding breaks (an inverse, the cancellation of
    a product, a strict growth).  Where the rounding of a double decides an
    outcome, the operations are evaluated on primitive floats
    ([fitAxis64]). *)

From Stdlib Require Import ZArith QArith Qcanon Qcabs Qreduction Lqa Lia.
From Stdlib Require Import List Bool String.
From Stdlib Require Import PrimFloat.
Import ListNotations.

Local Open Scope Qc_scope.

(** ** Rational helpers *)

Definition Qcltb (a b : Qc) : bool :=
  match a ?= b with Lt => true | _ => false end.

Definition Qceqb (a b : Qc) : bool :=
  match a ?= b with Eq => true | _ => false end.

Definition ofZ (z : Z) : Qc := Q2Qc (inject_Z z).

(** [n / d] as a canonical rational, for decimal literals such as [0.25]. *)
Definition frac (n : Z) (d : positive) : Qc := Q2Qc (n # d).

(** Square root on the rationals: exact whenever the argument is the square
    of a rational, which is the only case the program reaches with finite
    coordinates; otherwise numerator and denominator are rounded down. *)
Definition Qcsqrt (q : Qc) : Qc :=
  Q2Qc (Z.sqrt (Qnum q) # Pos.sqrt (Qden q)).

(** ** JavaScript numbers *)

Inductive num : Type :=
| Fin (q : Qc)
| PInf
| NInf
| NaN.

Declare Scope num_scope.
Delimit Scope num_scope with num.
Bind Scope num_scope with num.

Definition isFinite (a : num) : bool :=
  match a with Fin _ => true | _ => false end.

Definition nneg (a : num) : num :=
  match a with
  | Fin q => Fin (- q)
  | PInf => NInf
  | NInf => PInf
  | NaN => NaN
  end.

Definition nadd (a b : num) : num :=
  match a, b with
  | NaN, _ | _, NaN => NaN
  | Fin p, Fin q => Fin (p + q)
  | PInf, NInf | NInf, PInf => NaN
  | PInf, _ | _, PInf => PInf
  | NInf, _ | _, NInf => NInf
  end.

Definition nsub (a b : num) : num := nadd a (nneg b).

(** The infinity carrying the sign of [q]; [0 * Infinity] is NaN. *)
Definition inf_signed (q : Qc) (pos : bool) : num :=
  if Qceqb q 0 then NaN
  else if Bool.eqb (Qcltb 0 q) pos then PInf else NInf.

Definition nmul (a b : num) : num :=
  match a, b with
  | NaN, _ | _, NaN => NaN
  | Fin p, Fin q => Fin (p * q)
  | Fin p, PInf | PInf, Fin p => inf_signed p true
  | Fin p, NInf | NInf, Fin p => inf_signed p false
  | PInf, PInf | NInf, NInf => PInf
  | PInf, NInf | NInf, PInf => NInf
  end.

Definition ndiv (a b : num) : num :=
  match a, b with
  | NaN, _ | _, NaN => NaN
  | Fin p, Fin q => if Qceqb q 0 then inf_signed p true else Fin (p / q)
  | Fin _, PInf | Fin _, NInf => Fin 0
  | PInf, Fin q => if Qcltb q 0 then NInf else PInf
  | NInf, Fin q => if Qcltb q 0 then PInf else NInf
  | _, _ => NaN
  end.

Infix "+" := nadd : num_scope.
Infix "-" := nsub : num_scope.
Infix "*" := nmul : num_scope.
Infix "/" := ndiv : num_scope.
Notation "- a" := (nneg a) : num_scope.

(** [a < b] as JavaScript evaluates it: false as soon as one side is NaN. *)
Definition nlt (a b : num) : bool :=
  match a, b with
  | NaN, _ | _, NaN => false
  | Fin p, Fin q => Qcltb p q
  | NInf, NInf | PInf, _ | _, NInf => false
  | NInf, _ | _, PInf => true
  end.

Definition ngt (a b : num) : bool := nlt b a.

Infix "<?" := nlt (at level 70) : num_scope.
Infix ">?" := ngt (at level 70) : num_scope.

(** The order on numbers as a proposition; it never holds of NaN. *)
Definition nle (a b : num) : Prop :=
  match a, b with
  | NaN, _ | _, NaN => False
  | Fin p, Fin q => p <= q
  | NInf, _ | _, PInf => True
  | _, _ => False
  end.

Definition nltP (a b : num) : Prop := nlt a b = true.

Definition Math_min (a b : num) : num :=
  match a, b with
  | NaN, _ | _, NaN => NaN
  | _, _ => if nlt b a then b else a
  end.

Definition Math_max (a b : num) : num :=
  match a, b with
  | NaN, _ | _, NaN => NaN
  | _, _ => if nlt a b then b else a
  end.

Definition Math_abs (a : num) : num :=
  match a with
  | Fin q => Fin (Qcabs q)
  | PInf | NInf => PInf
  | NaN => NaN
  end.

Definition Math_sign (a : num) : num :=
  match a with
  | Fin q => if Qcltb 0 q then Fin 1 else if Qcltb q 0 then Fin (- (1)) else Fin 0
  | PInf => Fin 1
  | NInf => Fin (- (1))
  | NaN => NaN
  end.

(** [Math.hypot] of two arguments: Infinity as soon as one argument is
    infinite, else NaN if one is NaN, else the root of the sum of squares. *)
Definition Math_hypot (a b : num) : num :=
  match a, b with
  | PInf, _ | NInf, _ | _, PInf | _, NInf => PInf
  | NaN, _ | _, NaN => NaN
  | Fin p, Fin q => Fin (Qcsqrt (p * p + q * q))
  end.

(** Truthiness of a number: [0] and NaN are falsy. *)
Definition truthy (a : num) : bool :=
  match a with
  | Fin q => negb (Qceqb q 0)
  | NaN => false
  | _ => true
  end.

Definition of_Z (z : Z) : num := Fin (ofZ z).
Definition dec (n : Z) (d : positive) : num := Fin (frac n d).
Definition lit (n : Z) : num := dec n 1.

Local Close Scope Qc_scope.
Local Open Scope num_scope.

(** ** The document: surfaces, events, options *)

(** What the program reads of an element: [clientWidth] and [clientHeight]
    are integers in the DOM. *)
Record element : Type := {
  clientWidth : Z;
  clientHeight : Z
}.

Definition width (e : element) : num := of_Z (clientWidth e).
Definition height (e : element) : num := of_Z (clientHeight e).

(** The layout read on a call: the viewport ([wrapper]), the content surface
    ([container]) and the page scroll.  It is an argument of every method,
    since layout can change between two calls. *)
Record dom : Type := {
  wrapper : element;
  container : element;
  scrollX : num;
  scrollY : num
}.

(** An event target as [getEventOffsetToParent] walks it: the element's own
    offsets, then those of each [offsetParent]. *)
Record box : Type := {
  offsetLeft : num;
  offsetTop : num;
  scrollLeft : num;
  scrollTop : num
}.

(** The part of an event that [getEventOffsetToCenter] reads. *)
Record eventPoint : Type := {
  target : list box;
  clientX : num;
  clientY : num
}.

(** Coordinates and deltas of DOM events have the WebIDL type [double],
    which excludes NaN and the infinities. *)
Record WheelEvent : Type := {
  deltaY : Qc;
  deltaMode : N;
  wheelPoint : eventPoint
}.

Record PointerEvent : Type := {
  pointerId : Z;
  pageX : Qc;
  pageY : Qc;
  pointerClientX : Qc;
  pointerClientY : Qc;
  pointerTarget : list box
}.

(** A mouse event, or the first touch of a touch event. *)
Record MoveEvent : Type := {
  movePageX : Qc;
  movePageY : Qc
}.

(** Option [bounds]: [false] disables the bounds; ['cover'] is tested for by
    name and every other truthy value takes the ['contain'] branch. *)
Inductive boundsOption : Type :=
| bounds_false
| bounds_cover
| bounds_contain.

Definition bounds_enabled (b : boundsOption) : bool :=
  match b with bounds_false => false | _ => true end.

(** A zoom request: a number, or one of the two symbolic values. *)
Inductive zoomValue : Type :=
| zoom_cover
| zoom_contain
| zoom_num (z : num).

Record Options : Type := {
  center_option : bool;
  bounds : boundsOption;
  minZoom : num;
  maxZoom : num;
  panStep : num;
  zoomStep : num;
  zoomSpeedWheel : num;
  zoomSpeedPinch : num;
  initialZoom : zoomValue;
  initialPanX : num;
  initialPanY : num
}.

Definition defaultOptions : Options := {|
  center_option := true;
  bounds := bounds_contain;
  minZoom := dec 1 10;
  maxZoom := lit 10;
  panStep := lit 10;
  zoomStep := lit 50;
  zoomSpeedWheel := lit 1;
  zoomSpeedPinch := lit 4;
  initialZoom := zoom_contain;
  initialPanX := lit 0;
  initialPanY := lit 0
|}.

Definition set_minZoom (o : Options) (v : num) : Options := {|
  center_option := center_option o;
  bounds := bounds o;
  minZoom := v;
  maxZoom := maxZoom o;
  panStep := panStep o;
  zoomStep := zoomStep o;
  zoomSpeedWheel := zoomSpeedWheel o;
  zoomSpeedPinch := zoomSpeedPinch o;
  initialZoom := initialZoom o;
  initialPanX := initialPanX o;
  initialPanY := initialPanY o
|}.

(** ** The instance *)

(** [getPosition()]: the triple every callback receives. *)
Record position : Type := {
  zoom : num;
  x : num;
  y : num
}.

Record touchCenter : Type := {
  centerPageX : num;
  centerPageY : num;
  centerClientX : num;
  centerClientY : num
}.

(** The gesture caches.  A field the program has not assigned yet is
    [undefined]; read as a number that is NaN, as a condition it is false,
    and that is how such fields start here. *)
Record gesture : Type := {
  evCache : list PointerEvent;
  pinchDiffCache : num;
  zoomCache : num;
  xCache : num;
  yCache : num;
  touchEventsCenterCache : touchCenter;
  blockPan : bool;
  previousEvent : option MoveEvent
}.

Record domPanZoom : Type := {
  options : Options;
  pos : position;
  pinch : gesture;
  transitionEnabled : bool
}.

Definition with_options (o : Options) (t : domPanZoom) : domPanZoom :=
  {| options := o; pos := pos t; pinch := pinch t;
     transitionEnabled := transitionEnabled t |}.

Definition with_pos (p : position) (t : domPanZoom) : domPanZoom :=
  {| options := options t; pos := p; pinch := pinch t;
     transitionEnabled := transitionEnabled t |}.

Definition with_pinch (g : gesture) (t : domPanZoom) : domPanZoom :=
  {| options := options t; pos := pos t; pinch := g;
     transitionEnabled := transitionEnabled t |}.

Definition set_zoom (v : num) (t : domPanZoom) : domPanZoom :=
  with_pos {| zoom := v; x := x (pos t); y := y (pos t) |} t.

Definition set_xy (vx vy : num) (t : domPanZoom) : domPanZoom :=
  with_pos {| zoom := zoom (pos t); x := vx; y := vy |} t.

(** ** Methods of the class *)

Definition isNaN (a : num) : bool :=
  match a with NaN => true | _ => false end.

(** [transition(enabled)]: the transition style of the content surface is
    set when [enabled], removed otherwise. *)
Definition transition (enabled : bool) (t : domPanZoom) : domPanZoom :=
  {| options := options t; pos := pos t; pinch := pinch t;
     transitionEnabled := enabled |}.

(** [setPosition(instant)].  The callbacks of the option object ([onChange]
    here, [onZoom], [onPan] and [onInit] elsewhere) receive a copy of the
    position and are left out of the model. *)
Definition setPosition (d : dom) (instant : bool) (t : domPanZoom)
  : domPanZoom :=
  let t := transition (negb instant) t in
  if bounds_enabled (bounds (options t)) then
    let wrapperWidth := width (wrapper d) in
    let wrapperHeight := height (wrapper d) in
    let containerWidth := width (container d) in
    let containerHeight := height (container d) in
    let containerZoomWidth := containerWidth * zoom (pos t) in
    let containerZoomHeight := containerHeight * zoom (pos t) in
    let upperOffsetX := (containerWidth / lit 2) * (zoom (pos t) - lit 1) in
    let lowerOffsetX :=
      upperOffsetX * lit (-1) + wrapperWidth - containerWidth in
    let this_x :=
      if containerZoomWidth <? wrapperWidth then
        let this_x :=
          if x (pos t) <? upperOffsetX then upperOffsetX else x (pos t) in
        if this_x >? lowerOffsetX then lowerOffsetX else this_x
      else
        let this_x := Math_min (x (pos t)) upperOffsetX in
        Math_max this_x lowerOffsetX in
    let upperOffsetY := (containerHeight / lit 2) * (zoom (pos t) - lit 1) in
    let lowerOffsetY :=
      upperOffsetY * lit (-1) + wrapperHeight - containerHeight in
    let this_y :=
      if containerZoomHeight <? wrapperHeight then
        let this_y :=
          if y (pos t) <? upperOffsetY then upperOffsetY else y (pos t) in
        if this_y >? lowerOffsetY then lowerOffsetY else this_y
      else
        let this_y := Math_min (y (pos t)) upperOffsetY in
        Math_max this_y lowerOffsetY in
    set_xy this_x this_y t
  else t.

(** [panTo(x, y, instant, ignorePosition)] *)
Definition panTo (d : dom) (px py : num) (instant ignorePosition : bool)
  (t : domPanZoom) : domPanZoom :=
  let panX := ((width (container d) * zoom (pos t) * px) / lit 100) * lit (-1) in
  let panX := panX + (zoom (pos t) - lit 1) * (width (container d) * dec 1 2) in
  let panX := panX + width (wrapper d) * dec 1 2 in
  let panY := ((height (container d) * zoom (pos t) * py) / lit 100) * lit (-1) in
  let panY := panY + (zoom (pos t) - lit 1) * (height (container d) * dec 1 2) in
  let panY := panY + height (wrapper d) * dec 1 2 in
  let t := set_xy panX panY t in
  if negb ignorePosition then setPosition d instant t else t.

(** [center(instant, ignorePosition)] *)
Definition center (d : dom) (instant ignorePosition : bool) (t : domPanZoom)
  : domPanZoom :=
  panTo d (lit 50) (lit 50) instant ignorePosition t.

(** [sanitizeZoom(zoom)]: the sanitized value, and the instance, which the
    two symbolic requests re-center. *)
Definition sanitizeZoom (d : dom) (z : zoomValue) (t : domPanZoom)
  : num * domPanZoom :=
  let '(z, t) :=
    match z with
    | zoom_num z => (z, t)
    | _ =>
        let maxWidth := width (wrapper d) in
        let maxHeight := height (wrapper d) in
        let panZoomWidth := width (container d) in
        let panZoomHeight := height (container d) in
        let minZoomX := maxWidth / panZoomWidth in
        let minZoomY := maxHeight / panZoomHeight in
        let t := center d true true t in
        (match z with
         | zoom_cover => Math_max minZoomX minZoomY
         | _ => Math_min minZoomX minZoomY
         end, t)
    end in
  let z := if z <? minZoom (options t) then minZoom (options t) else z in
  let z := if z >? maxZoom (options t) then maxZoom (options t) else z in
  (z, t).

(** [getEventOffsetToParent(ev)] *)
Fixpoint offsetOfChain (el : list box) (ox oy : num) : num * num :=
  match el with
  | [] => (ox, oy)
  | b :: offsetParent =>
      if negb (isNaN (offsetLeft b)) && negb (isNaN (offsetTop b)) then
        offsetOfChain offsetParent
          (ox + (offsetLeft b - scrollLeft b))
          (oy + (offsetTop b - scrollTop b))
      else (ox, oy)
  end.

Definition getEventOffsetToParent (ev : eventPoint) : num * num :=
  let '(ox, oy) := offsetOfChain (target ev) (lit 0) (lit 0) in
  (clientX ev - ox, clientY ev - oy).

(** [getEventOffsetToCenter(ev)]; [None] is the call without argument. *)
Definition getEventOffsetToCenter (d : dom) (ev : option eventPoint)
  (t : domPanZoom) : num * num :=
  let diffX := width (wrapper d) - width (container d) in
  let diffY := height (wrapper d) - height (container d) in
  let centerX := diffX * dec 1 2 in
  let centerY := diffY * dec 1 2 in
  let offsetToCenter :=
    match ev with
    | Some ev =>
        let offsetToParent := getEventOffsetToParent ev in
        ((width (wrapper d) / lit 2 - fst offsetToParent - scrollX d) * lit (-1),
         (height (wrapper d) / lit 2 - snd offsetToParent - scrollY d) * lit (-1))
    | None => (lit 0, lit 0)
    end in
  (x (pos t) - centerX - fst offsetToCenter,
   y (pos t) - centerY - snd offsetToCenter).

(** [adjustPositionByZoom(zoom, x, y)] *)
Definition adjustPositionByZoom (d : dom) (z ax ay : num) (t : domPanZoom)
  : domPanZoom :=
  let currentZoom := zoom (pos t) in
  let zoomGrowth := (z - currentZoom) / currentZoom in
  let maxOffsetX := width (container d) * dec 1 2 * currentZoom in
  let maxOffsetY := height (container d) * dec 1 2 * currentZoom in
  let ax := if ax >? maxOffsetX then Math_min ax maxOffsetX else ax in
  let ax :=
    if ax <? maxOffsetX * lit (-1)
    then Math_max ax (maxOffsetX * lit (-1)) else ax in
  let ay := if ay >? maxOffsetY then Math_min ay maxOffsetY else ay in
  let ay :=
    if ay <? maxOffsetY * lit (-1)
    then Math_max ay (maxOffsetY * lit (-1)) else ay in
  set_xy (x (pos t) + ax * zoomGrowth) (y (pos t) + ay * zoomGrowth) t.

(** [zoomTo(zoom, instant)] *)
Definition zoomTo (d : dom) (z : zoomValue) (instant : bool) (t : domPanZoom)
  : domPanZoom :=
  let '(z, t) := sanitizeZoom d z t in
  let offsetToCenter := getEventOffsetToCenter d None t in
  let t := adjustPositionByZoom d z (fst offsetToCenter) (snd offsetToCenter) t in
  let t := set_zoom z t in
  setPosition d instant t.

(** ** Stepping methods *)

(** How a method can end: with a value, or by throwing. *)
Inductive exn : Type :=
| TypeError (message : string)
| DOMException (name : string).

Inductive completion (A : Type) : Type :=
| Return (a : A)
| Throw (e : exn).

Arguments Return {A} a.
Arguments Throw {A} e.

(** The optional [step] argument of [zoomIn], [zoomOut] and the four pan
    methods: left out, a boolean (then it is the [instant] flag), or a
    number. *)
Inductive stepArg : Type :=
| step_omitted
| step_bool (b : bool)
| step_num (n : num).

Inductive zoomDirection : Type := dir_in | dir_out.
Inductive panDirection : Type := dir_left | dir_right | dir_up | dir_down.

(** [if (step === true || step === false) { instant = step; step = null; }]
    followed by [step = step || dflt]. *)
Definition instantOf (step : stepArg) (instant : bool) : bool :=
  match step with step_bool b => b | _ => instant end.

Definition stepOf (step : stepArg) (dflt : num) : num :=
  match step with
  | step_num n => if truthy n then n else dflt
  | _ => dflt
  end.

(** [zoomInOut(step, instant, direction)].  [zoomStep] is declared [const];
    the branch for ['out'] assigns to it, which throws. *)
Definition zoomInOut (d : dom) (step : stepArg) (instant : bool)
  (direction : zoomDirection) (t : domPanZoom) : completion domPanZoom :=
  let instant := instantOf step instant in
  let step := stepOf step (zoomStep (options t)) in
  let currentZoom := zoom (pos t) in
  let zoomStep := (lit 100 + step) / lit 100 in
  match direction with
  | dir_out => Throw (TypeError "Assignment to constant variable.")
  | dir_in =>
      let nextZoom := currentZoom * zoomStep in
      Return (zoomTo d (zoom_num nextZoom) instant t)
  end.

Definition zoomIn (d : dom) (step : stepArg) (instant : bool)
  (t : domPanZoom) : completion domPanZoom :=
  zoomInOut d step instant dir_in t.

Definition zoomOut (d : dom) (step : stepArg) (instant : bool)
  (t : domPanZoom) : completion domPanZoom :=
  zoomInOut d step instant dir_out t.

(** [pan(step, instant, direction)] *)
Definition pan (d : dom) (step : stepArg) (instant : bool)
  (direction : panDirection) (t : domPanZoom) : domPanZoom :=
  let instant := instantOf step instant in
  let step := stepOf step (panStep (options t)) in
  let panWidth := ((width (container d) * step) / lit 100) * zoom (pos t) in
  let panHeight := ((width (container d) * step) / lit 100) * zoom (pos t) in
  let t :=
    match direction with
    | dir_left => set_xy (x (pos t) + panWidth * lit (-1)) (y (pos t)) t
    | dir_right => set_xy (x (pos t) + panWidth) (y (pos t)) t
    | dir_up => set_xy (x (pos t)) (y (pos t) + panHeight * lit (-1)) t
    | dir_down => set_xy (x (pos t)) (y (pos t) + panHeight) t
    end in
  setPosition d instant t.


(** ** Getters *)

Definition getPosition (t : domPanZoom) : position := pos t.

Definition getZoom (t : domPanZoom) : num := zoom (pos t).

Definition getPanX (d : dom) (pixelValues : bool) (t : domPanZoom) : num :=
  let panX := width (wrapper d) * dec 1 2 + x (pos t) * lit (-1) in
  let panX := panX + (zoom (pos t) - lit 1) * (width (container d) * dec 1 2) in
  let percentX := (panX / (width (container d) * zoom (pos t))) * lit 100 in
  if pixelValues then panX else percentX.

Definition getPanY (d : dom) (pixelValues : bool) (t : domPanZoom) : num :=
  let panY := height (wrapper d) * dec 1 2 + y (pos t) * lit (-1) in
  let panY := panY + (zoom (pos t) - lit 1) * (height (container d) * dec 1 2) in
  let percentY := (panY / (height (container d) * zoom (pos t))) * lit 100 in
  if pixelValues then panY else percentY.

Definition getPan (d : dom) (pixelValues : bool) (t : domPanZoom)
  : num * num :=
  (getPanX d pixelValues t, getPanY d pixelValues t).

(** ** Initialization *)

(** The instance as [init] finds it: nothing assigned yet except the
    options. *)
Definition blank (o : Options) : domPanZoom := {|
  options := o;
  pos := {| zoom := NaN; x := NaN; y := NaN |};
  pinch := {|
    evCache := [];
    pinchDiffCache := NaN;
    zoomCache := NaN;
    xCache := NaN;
    yCache := NaN;
    touchEventsCenterCache :=
      {| centerPageX := NaN; centerPageY := NaN;
         centerClientX := NaN; centerClientY := NaN |};
    blockPan := false;
    previousEvent := None |};
  transitionEnabled := false
|}.

Definition set_pinchDiffCache (v : num) (g : gesture) : gesture := {|
  evCache := evCache g;
  pinchDiffCache := v;
  zoomCache := zoomCache g;
  xCache := xCache g;
  yCache := yCache g;
  touchEventsCenterCache := touchEventsCenterCache g;
  blockPan := blockPan g;
  previousEvent := previousEvent g
|}.

(** [init()], once both surfaces are resolved. *)
Definition init (d : dom) (o : Options) : domPanZoom :=
  let t := blank o in
  let t := with_pinch (set_pinchDiffCache (lit 0) (pinch t)) t in
  let t :=
    if bounds_enabled (bounds (options t)) then
      let maxWidth := width (wrapper d) in
      let maxHeight := height (wrapper d) in
      let panZoomWidth := width (container d) in
      let panZoomHeight := height (container d) in
      let minZoomX := maxWidth / panZoomWidth in
      let minZoomY := maxHeight / panZoomHeight in
      match bounds (options t) with
      | bounds_cover =>
          with_options
            (set_minZoom (options t)
               (Math_max (Math_max (minZoom (options t)) minZoomX) minZoomY)) t
      | _ =>
          with_options
            (set_minZoom (options t)
               (Math_max (minZoom (options t)) (Math_min minZoomX minZoomY))) t
      end
    else t in
  let '(z, t) := sanitizeZoom d (initialZoom (options t)) t in
  let t := set_zoom z t in
  let t := set_xy (initialPanX (options t)) (initialPanY (options t)) t in
  if center_option (options t) then center d true false t
  else panTo d (initialPanX (options t)) (initialPanY (options t)) true false t.

(** ** The constructor and the two surface look-ups *)

(** Option [wrapperElement] or [panZoomElement] as the caller gives it:
    nothing, a selector string, an element, or some other value. *)
Inductive elementRef : Type :=
| ref_null
| ref_selector (selector : string)
| ref_element (e : element)
| ref_other.

Record userOptions : Type := {
  wrapperElement : elementRef;
  panZoomElement : elementRef;
  settings : Options
}.

(** What [document.querySelector] does with a selector: it returns the
    first matching element or null, and it throws a [DOMException] named
    [SyntaxError] when the string is no valid selector. *)
Inductive queryResult : Type :=
| query_found (e : element)
| query_null
| query_throws.

(** [getWrapper()] on an instance that has no cached wrapper: the element or
    null together with the option as the call leaves it (a selector is
    replaced by what [document.querySelector] found), or the exception of
    [document.querySelector]; and what went to [console.error]. *)
Definition getWrapper (querySelector : string -> queryResult)
  (r : elementRef)
  : completion (option element * elementRef) * list string :=
  match r with
  | ref_null =>
      (Return (None, r), ["The option wrapperElement is required."%string])
  | ref_selector EmptyString =>
      (Return (None, r), ["The option wrapperElement is required."%string])
  | ref_selector s =>
      match querySelector s with
      | query_found e => (Return (Some e, ref_element e), [])
      | query_null =>
          (Return (None, ref_null),
           ["The option wrapperElement needs to be a valid selector string or an instance of Element."%string])
      | query_throws => (Throw (DOMException "SyntaxError"), [])
      end
  | ref_element e => (Return (Some e, r), [])
  | ref_other =>
      (Return (None, r),
       ["The option wrapperElement needs to be a valid selector string or an instance of Element."%string])
  end.

Definition getContainer (querySelector : string -> queryResult)
  (r : elementRef)
  : completion (option element * elementRef) * list string :=
  match r with
  | ref_null =>
      (Return (None, r), ["The option panZoomElement is required."%string])
  | ref_selector EmptyString =>
      (Return (None, r), ["The option panZoomElement is required."%string])
  | ref_selector s =>
      match querySelector s with
      | query_found e => (Return (Some e, ref_element e), [])
      | query_null =>
          (Return (None, ref_null),
           ["The option panZoomElement needs to be a valid selector string or an instance of Element."%string])
      | query_throws => (Throw (DOMException "SyntaxError"), [])
      end
  | ref_element e => (Return (Some e, r), [])
  | ref_other =>
      (Return (None, r),
       ["The option panZoomElement needs to be a valid selector string or an instance of Element."%string])
  end.

(** [new domPanZoom(options)]: the completion of the constructor and the
    lines written to [console.error].  An exception of a look-up leaves the
    constructor at once.  [init] reads [wrapper.style] right after the two
    look-ups (an element is an HTML or SVG element here, which has a
    [style]); the content surface is first read in the bounds block when
    [bounds] is set, and otherwise after one more [getContainer()] call, in
    [sanitizeZoom] or in [panTo]. *)
Definition construct (querySelector : string -> queryResult)
  (sx sy : num) (u : userOptions) : completion domPanZoom * list string :=
  match getWrapper querySelector (wrapperElement u) with
  | (Throw e, log1) => (Throw e, log1)
  | (Return (wrapper, _), log1) =>
      match getContainer querySelector (panZoomElement u) with
      | (Throw e, log2) => (Throw e, log1 ++ log2)
      | (Return (container, panZoomElement), log2) =>
          match wrapper, container with
          | None, _ =>
              (Throw (TypeError "Cannot read properties of null (reading 'style')"),
               log1 ++ log2)
          | Some w, Some c =>
              (Return
                 (init {| wrapper := w; container := c;
                          scrollX := sx; scrollY := sy |} (settings u)),
               log1 ++ log2)
          | Some w, None =>
              if bounds_enabled (bounds (settings u)) then
                (Throw (TypeError "Cannot read properties of null (reading 'clientWidth')"),
                 log1 ++ log2)
              else
                match getContainer querySelector panZoomElement with
                | (Throw e, log3) => (Throw e, log1 ++ log2 ++ log3)
                | (Return _, log3) =>
                    (Throw (TypeError "Cannot read properties of null (reading 'clientWidth')"),
                     log1 ++ log2 ++ log3)
                end
          end
      end
  end.

(** ** Event handlers *)

Definition set_previousEvent (p : option MoveEvent) (g : gesture) : gesture := {|
  evCache := evCache g;
  pinchDiffCache := pinchDiffCache g;
  zoomCache := zoomCache g;
  xCache := xCache g;
  yCache := yCache g;
  touchEventsCenterCache := touchEventsCenterCache g;
  blockPan := blockPan g;
  previousEvent := p
|}.


(** [mouseUpTouchEndEvent()] *)
Definition mouseUpTouchEndEvent (t : domPanZoom) : domPanZoom :=
  with_pinch (set_previousEvent None (pinch t)) t.

(** [mouseWheelEvent(ev)] *)
Definition wheelDelta (ev : WheelEvent) : num :=
  let delta := Fin (deltaY ev) in
  if (0 <? deltaMode ev)%N then delta * lit 100 else delta.

Definition deltaAdjustedSpeed (speed delta : num) : num :=
  let sign := Math_sign delta in
  lit 1 - sign * Math_min (dec 1 4) (Math_abs ((speed * delta) / lit 128)).

Definition mouseWheelEvent (d : dom) (ev : WheelEvent) (t : domPanZoom)
  : domPanZoom :=
  let delta := wheelDelta ev in
  let speed := zoomSpeedWheel (options t) in
  let '(nextZoom, t) :=
    sanitizeZoom d (zoom_num (zoom (pos t) * deltaAdjustedSpeed speed delta)) t in
  let offsetToCenter := getEventOffsetToCenter d (Some (wheelPoint ev)) t in
  let t :=
    adjustPositionByZoom d nextZoom (fst offsetToCenter) (snd offsetToCenter) t in
  let t := set_zoom nextZoom t in
  setPosition d true t.

(** [getTouchEventsDistance(ev1, ev2)] *)
Definition getTouchEventsDistance (ev1 ev2 : PointerEvent) : num :=
  Math_abs
    (Math_hypot (Fin (pageX ev1) - Fin (pageX ev1))
                (Fin (pageY ev1) - Fin (pageY ev2))).

(** [getTouchEventsCenter(ev1, ev2)] *)
Definition getTouchEventsCenter (ev1 ev2 : PointerEvent) : touchCenter := {|
  centerPageX := (Fin (pageX ev1) + Fin (pageX ev2)) / lit 2;
  centerPageY := (Fin (pageY ev1) + Fin (pageX ev2)) / lit 2;
  centerClientX := (Fin (pointerClientX ev1) + Fin (pointerClientX ev2)) / lit 2;
  centerClientY := (Fin (pointerClientY ev1) + Fin (pointerClientY ev2)) / lit 2
|}.

(** [pointerDownEvent(ev)] *)
Definition pointerDownEvent (ev : PointerEvent) (t : domPanZoom)
  : domPanZoom :=
  let cache := evCache (pinch t) ++ [ev] in
  let g := {|
    evCache := cache;
    pinchDiffCache := pinchDiffCache (pinch t);
    zoomCache := zoom (pos t);
    xCache := x (pos t);
    yCache := y (pos t);
    touchEventsCenterCache := touchEventsCenterCache (pinch t);
    blockPan := blockPan (pinch t);
    previousEvent := previousEvent (pinch t) |} in
  match cache with
  | [ev0; ev1] =>
      with_pinch {|
        evCache := cache;
        pinchDiffCache := getTouchEventsDistance ev0 ev1;
        zoomCache := zoomCache g;
        xCache := xCache g;
        yCache := yCache g;
        touchEventsCenterCache := getTouchEventsCenter ev0 ev1;
        blockPan := true;
        previousEvent := previousEvent g |} t
  | _ => with_pinch g t
  end.

(** The loop of [pointerMoveEvent]: the first cached event with the
    pointer's id is replaced. *)
Fixpoint replacePointer (ev : PointerEvent) (cache : list PointerEvent)
  : list PointerEvent :=
  match cache with
  | [] => []
  | c :: rest =>
      if (pointerId ev =? pointerId c)%Z then ev :: rest
      else c :: replacePointer ev rest
  end.

(** The loop of [pointerUpEvent]: the first cached event with the pointer's
    id is spliced out. *)
Fixpoint removePointer (ev : PointerEvent) (cache : list PointerEvent)
  : list PointerEvent :=
  match cache with
  | [] => []
  | c :: rest =>
      if (pointerId c =? pointerId ev)%Z then rest
      else c :: removePointer ev rest
  end.

Definition set_evCache (cache : list PointerEvent) (g : gesture) : gesture := {|
  evCache := cache;
  pinchDiffCache := pinchDiffCache g;
  zoomCache := zoomCache g;
  xCache := xCache g;
  yCache := yCache g;
  touchEventsCenterCache := touchEventsCenterCache g;
  blockPan := blockPan g;
  previousEvent := previousEvent g
|}.

Definition set_blockPan (b : bool) (g : gesture) : gesture := {|
  evCache := evCache g;
  pinchDiffCache := pinchDiffCache g;
  zoomCache := zoomCache g;
  xCache := xCache g;
  yCache := yCache g;
  touchEventsCenterCache := touchEventsCenterCache g;
  blockPan := b;
  previousEvent := previousEvent g
|}.

(** [pointerMoveEvent(ev)] *)
Definition pointerMoveEvent (d : dom) (ev : PointerEvent) (t : domPanZoom)
  : domPanZoom :=
  let t := with_pinch (set_evCache (replacePointer ev (evCache (pinch t))) (pinch t)) t in
  match evCache (pinch t) with
  | [ev0; ev1] =>
      let pinchDiff := getTouchEventsDistance ev0 ev1 in
      let pinchDiff := pinchDiff - pinchDiffCache (pinch t) in
      let pinchDiffPercent := pinchDiff / width (container d) in
      let pinchDiffPercent := pinchDiffPercent * zoomSpeedPinch (options t) in
      let pinchDiffPercent := pinchDiffPercent + lit 1 in
      let '(nextZoom, t) :=
        sanitizeZoom d (zoom_num (zoomCache (pinch t) * pinchDiffPercent)) t in
      let touchEventsCenter := getTouchEventsCenter ev0 ev1 in
      let offsetToCenter :=
        getEventOffsetToCenter d
          (Some {| target := pointerTarget ev0;
                   clientX := centerClientX touchEventsCenter;
                   clientY := centerClientY touchEventsCenter |}) t in
      let t :=
        adjustPositionByZoom d nextZoom
          (fst offsetToCenter) (snd offsetToCenter) t in
      let touchEventsCenterDiff :=
        (centerClientX touchEventsCenter
           - centerClientX (touchEventsCenterCache (pinch t)),
         centerClientY touchEventsCenter
           - centerClientY (touchEventsCenterCache (pinch t))) in
      let t :=
        set_xy (xCache (pinch t) + fst touchEventsCenterDiff)
               (yCache (pinch t) + snd touchEventsCenterDiff) t in
      let t := set_zoom nextZoom t in
      setPosition d true t
  | _ => t
  end.

(** [pointerUpEvent(ev)], the handler of [pointerup], [pointercancel],
    [pointerout] and [pointerleave]. *)
Definition pointerUpEvent (ev : PointerEvent) (t : domPanZoom) : domPanZoom :=
  let t := with_pinch (set_evCache (removePointer ev (evCache (pinch t))) (pinch t)) t in
  if (List.length (evCache (pinch t)) <? 2)%nat
  then with_pinch (set_blockPan false (pinch t)) t
  else t.

(** The pointer events the wrapper delivers, and a run of them. *)
Inductive pointerInput : Type :=
| pointerdown (ev : PointerEvent)
| pointermove (ev : PointerEvent)
| pointerup (ev : PointerEvent).

Definition pointerStep (d : dom) (t : domPanZoom) (i : pointerInput)
  : domPanZoom :=
  match i with
  | pointerdown ev => pointerDownEvent ev t
  | pointermove ev => pointerMoveEvent d ev t
  | pointerup ev => pointerUpEvent ev t
  end.

Definition pointerRun (d : dom) (t : domPanZoom) (inputs : list pointerInput)
  : domPanZoom :=
  fold_left (pointerStep d) inputs t.

(** ** Notions of the specification *)

(** [clamp(z, lo, hi)] *)
Definition clamp (z lo hi : num) : num := Math_min (Math_max z lo) hi.

(** The clamp window of one axis, in the words of the specification. *)
Definition upperOffset (contentSize zoomv : num) : num :=
  (contentSize / lit 2) * (zoomv - lit 1).

Definition lowerOffset (contentSize viewportSize zoomv : num) : num :=
  - upperOffset contentSize zoomv + viewportSize - contentSize.

Definition within (v lo hi : num) : Prop := nle lo v /\ nle v hi.


(** ** Concrete layouts and instances *)

Definition surface (w h : Z) : element :=
  {| clientWidth := w; clientHeight := h |}.

Definition layout (ww wh cw ch : Z) : dom :=
  {| wrapper := surface ww wh; container := surface cw ch;
     scrollX := lit 0; scrollY := lit 0 |}.

(** A viewport of 800 x 600 with a content surface of 1600 x 1200. *)
Definition scenarioA : dom := layout 800 600 1600 1200.

(** An instance with the given options and position, no gesture going on. *)
Definition instanceAt (o : Options) (z px py : num) : domPanZoom :=
  with_pos {| zoom := z; x := px; y := py |} (blank o).

(** The zoom invariant of the specification, [minZoom <= zoom <= maxZoom],
    and its two halves. *)
Definition zoomInRange (t : domPanZoom) : Prop :=
  nle (minZoom (options t)) (zoom (pos t)) /\
  nle (zoom (pos t)) (maxZoom (options t)).

Definition zoomAtMostMax (t : domPanZoom) : Prop :=
  nle (zoom (pos t)) (maxZoom (options t)).

Definition zoomAtLeastMin (t : domPanZoom) : Prop :=
  nle (minZoom (options t)) (zoom (pos t)).

(** A content surface 20 times smaller than the viewport. *)
Definition tinyContent : dom := layout 800 600 40 30.

(** ** Derived quantities of the handlers *)

(** The zoom a pinch update asks [sanitizeZoom] for, with [ev0] and [ev1]
    the two cached pointers. *)
Definition pinchRequest (d : dom) (ev0 ev1 : PointerEvent) (t : domPanZoom)
  : num :=
  zoomCache (pinch t)
  * (((getTouchEventsDistance ev0 ev1 - pinchDiffCache (pinch t))
       / width (container d)) * zoomSpeedPinch (options t) + lit 1).


(** The lower zoom limit as the bounds block of [init] leaves it. *)
Definition minZoomAfterInit (d : dom) (o : Options) : num :=
  let minZoomX := width (wrapper d) / width (container d) in
  let minZoomY := height (wrapper d) / height (container d) in
  match bounds o with
  | bounds_false => minZoom o
  | bounds_cover => Math_max (Math_max (minZoom o) minZoomX) minZoomY
  | bounds_contain => Math_max (minZoom o) (Math_min minZoomX minZoomY)
  end.

(** The number a zoom request stands for before the limits are applied. *)
Definition requestedZoom (d : dom) (z : zoomValue) : num :=
  let minZoomX := width (wrapper d) / width (container d) in
  let minZoomY := height (wrapper d) / height (container d) in
  match z with
  | zoom_num z => z
  | zoom_cover => Math_max minZoomX minZoomY
  | zoom_contain => Math_min minZoomX minZoomY
  end.

(** A zoom request that is a finite number or one of the symbolic values. *)
Definition validZoomValue (z : zoomValue) : Prop :=
  match z with
  | zoom_num z => isFinite z = true
  | _ => True
  end.

(** The block [setPosition] runs on each axis when bounds are enabled:
    [size] is the content size, [view] the viewport size, [v] the offset. *)
Definition fitAxis (size view zoomv v : num) : num :=
  let upper := (size / lit 2) * (zoomv - lit 1) in
  let lower := upper * lit (-1) + view - size in
  if size * zoomv <? view then
    let v := if v <? upper then upper else v in
    if v >? lower then lower else v
  else
    let v := Math_min v upper in
    Math_max v lower.

(** ** The bounds block on binary64 numbers *)

(** The bounds block of [setPosition] once more, on the IEEE 754 doubles
    the program runs on: the same operations in the same order, each one
    rounded.  It is evaluated where the rounding of [upperOffset] and
    [lowerOffset] decides on which side of the window an offset ends. *)
Definition Math_min64 (a b : float) : float :=
  if (is_nan a || is_nan b)%bool then nan
  else if (a <? b)%float then a
  else if (b <? a)%float then b
  else if get_sign a then a else b.

Definition Math_max64 (a b : float) : float :=
  if (is_nan a || is_nan b)%bool then nan
  else if (a <? b)%float then b
  else if (b <? a)%float then a
  else if get_sign a then b else a.

Definition upperOffset64 (contentSize zoomv : float) : float :=
  ((contentSize / 2) * (zoomv - 1))%float.

Definition lowerOffset64 (contentSize viewportSize zoomv : float) : float :=
  (upperOffset64 contentSize zoomv * (-1) + viewportSize - contentSize)%float.

Definition fitAxis64 (size view zoomv v : float) : float :=
  let upper := upperOffset64 size zoomv in
  let lower := lowerOffset64 size view zoomv in
  if (size * zoomv <? view)%float then
    let v := if (v <? upper)%float then upper else v in
    if (lower <? v)%float then lower else v
  else
    let v := Math_min64 v upper in
    Math_max64 v lower.

(** The offset [panTo] computes on one axis for the percentage [p]. *)
Definition panToAxis64 (size view zoomv p : float) : float :=
  let pan := (((size * zoomv * p) / 100) * (-1))%float in
  let pan := (pan + (zoomv - 1) * (size * 0.5))%float in
  (pan + view * 0.5)%float.

(** ** Notions used by the further properties *)

(** The pointer has an entry in the cache. *)
Definition cached (ev : PointerEvent) (cache : list PointerEvent) : bool :=
  existsb (fun c => (pointerId c =? pointerId ev)%Z) cache.

(** Panning is blocked exactly while the cache holds two pointers or more. *)
Definition blockPanAgrees (t : domPanZoom) : Prop :=
  blockPan (pinch t) = (2 <=? List.length (evCache (pinch t)))%nat.



(** The default options with the bounds switched off. *)
Definition freeOptions : Options := {|
  center_option := true;
  bounds := bounds_false;
  minZoom := dec 1 10;
  maxZoom := lit 10;
  panStep := lit 10;
  zoomStep := lit 50;
  zoomSpeedWheel := lit 1;
  zoomSpeedPinch := lit 4;
  initialZoom := zoom_contain;
  initialPanX := lit 0;
  initialPanY := lit 0
|}.

(** A pointer at integer page coordinates, and a wheel event in the middle
    of the 800 x 600 viewport. *)
Definition finger (id px py : Z) : PointerEvent := {|
  pointerId := id;
  pageX := frac px 1;
  pageY := frac py 1;
  pointerClientX := frac px 1;
  pointerClientY := frac py 1;
  pointerTarget := []
|}.

Definition wheelAt (dy : Z) : WheelEvent := {|
  deltaY := frac dy 1;
  deltaMode := 0;
  wheelPoint := {| target := []; clientX := lit 400; clientY := lit 300 |}
|}.

(** * Proofs *)

Local Close Scope num_scope.
Local Open Scope Qc_scope.

(** ** Order and arithmetic automation on canonical rationals *)

Lemma Qcltb_lt (a b : Qc) : Qcltb a b = true <-> a < b.
Proof.
  unfold Qcltb. rewrite Qclt_alt.
  destruct (a ?= b); split; congruence.
Qed.

Lemma Qcltb_ge (a b : Qc) : Qcltb a b = false <-> b <= a.
Proof.
  split; intro H.
  - apply Qcnot_lt_le. intro L. apply Qcltb_lt in L. congruence.
  - destruct (Qcltb a b) eqn:E; trivial.
    apply Qcltb_lt in E. exfalso. exact (Qcle_not_lt _ _ H E).
Qed.

Lemma Qceqb_eq (a b : Qc) : Qceqb a b = true <-> a = b.
Proof.
  unfold Qceqb. rewrite Qceq_alt.
  destruct (a ?= b); split; congruence.
Qed.

Lemma Qceqb_neq (a b : Qc) : Qceqb a b = false <-> a <> b.
Proof.
  split; intro H.
  - intro E. apply Qceqb_eq in E. congruence.
  - destruct (Qceqb a b) eqn:E; trivial.
    apply Qceqb_eq in E. contradiction.
Qed.

Lemma Qc_eq_Qeq (a b : Qc) : a = b <-> (a == b)%Q.
Proof.
  split; [intros ->; reflexivity | apply Qc_is_canon].
Qed.

Lemma Qc_neq_Qeq (a b : Qc) : a <> b <-> ~ (a == b)%Q.
Proof. rewrite Qc_eq_Qeq. tauto. Qed.

(** Push a statement on canonical rationals down to [Q], where [lra] and
    [nra] work. *)
Ltac qc_to_q :=
  repeat match goal with
  | H : Qcltb _ _ = true |- _ => apply Qcltb_lt in H
  | H : Qcltb _ _ = false |- _ => apply Qcltb_ge in H
  | H : Qceqb _ _ = true |- _ => apply Qceqb_eq in H
  | H : Qceqb _ _ = false |- _ => apply Qceqb_neq in H
  | H : @eq Qc _ _ |- _ => apply Qc_eq_Qeq in H
  | H : ~ @eq Qc _ _ |- _ => apply Qc_neq_Qeq in H
  | |- Qcltb _ _ = true => apply Qcltb_lt
  | |- Qcltb _ _ = false => apply Qcltb_ge
  | |- Qceqb _ _ = true => apply Qceqb_eq
  | |- Qceqb _ _ = false => apply Qceqb_neq
  | |- @eq Qc _ _ => apply Qc_is_canon
  | |- ~ @eq Qc _ _ => apply Qc_neq_Qeq
  end;
  unfold Qclt, Qcle, Qcminus, Qcdiv, Qcplus, Qcmult, Qcopp, Qcinv, Qcabs,
    ofZ, frac, Q2Qc in *;
  cbn [this] in *;
  repeat match goal with
  | H : context [Qred ?q] |- _ => rewrite (Qred_correct q) in H
  | |- context [Qred ?q] => rewrite (Qred_correct q)
  end;
  repeat match goal with
  | H : context [Qinv (Zpos ?n # ?d)] |- _ =>
      change (Qinv (Zpos n # d)) with (Zpos d # n) in H
  | |- context [Qinv (Zpos ?n # ?d)] =>
      change (Qinv (Zpos n # d)) with (Zpos d # n)
  end.

Ltac qc_lra := qc_to_q; lra.
Ltac qc_nra := qc_to_q; nra.



Lemma Qceqb_frac_pos (n d : positive) : Qceqb (frac (Zpos n) d) 0 = false.
Proof. qc_to_q. intro H. unfold Qeq in H. simpl in H. lia. Qed.

Lemma Qceqb_frac_neg (n d : positive) : Qceqb (frac (Zneg n) d) 0 = false.
Proof. qc_to_q. intro H. unfold Qeq in H. simpl in H. lia. Qed.

Lemma ofZ_pos (z : Z) : (0 < z)%Z -> 0 < ofZ z.
Proof. intro H. qc_to_q. unfold Qlt, inject_Z. simpl. lia. Qed.

Lemma ofZ_nonzero (z : Z) : (0 < z)%Z -> Qceqb (ofZ z) 0 = false.
Proof. intro H. apply ofZ_pos in H. qc_lra. Qed.

Local Close Scope Qc_scope.
Local Open Scope num_scope.

(** Evaluation of number expressions whose leaves are finite. *)
Ltac num_unfold :=
  unfold width, height, lit, dec, of_Z, ngt, Math_min, Math_max in *.

Ltac num_cbn :=
  repeat (progress
    (cbv beta iota delta
       [nadd nsub nmul nneg ndiv nlt nle Math_abs isFinite isNaN fst snd] in *;
     rewrite ?Qceqb_frac_pos, ?Qceqb_frac_neg in *)).

Ltac num_eval := num_unfold; num_cbn.

Ltac split_ltb :=
  repeat match goal with
  | |- context [Qcltb ?a ?b] => destruct (Qcltb a b) eqn:?; num_cbn
  end.

(** Closed equalities and inequalities between numbers. *)
Ltac num_refl :=
  vm_compute;
  repeat match goal with
  | |- _ /\ _ => split
  | |- @eq num (Fin _) (Fin _) => apply f_equal
  | |- @eq Qc _ _ => apply Qc_is_canon; vm_compute; reflexivity
  | |- _ => reflexivity
  end.
(** ** Bounds clamping (C2) *)

Lemma setPosition_zoom d instant t :
  zoom (pos (setPosition d instant t)) = zoom (pos t).
Proof.
  unfold setPosition.
  destruct (bounds_enabled (bounds (options (transition (negb instant) t))));
    reflexivity.
Qed.

Lemma setPosition_options d instant t :
  options (setPosition d instant t) = options t.
Proof.
  unfold setPosition.
  destruct (bounds_enabled (bounds (options (transition (negb instant) t))));
    reflexivity.
Qed.

Lemma setPosition_pos d instant t :
  pos (setPosition d instant t) =
  if bounds_enabled (bounds (options t)) then
    {| zoom := zoom (pos t);
       x := fitAxis (width (container d)) (width (wrapper d))
              (zoom (pos t)) (x (pos t));
       y := fitAxis (height (container d)) (height (wrapper d))
              (zoom (pos t)) (y (pos t)) |}
  else pos t.
Proof.
  unfold setPosition. cbn [transition options].
  destruct (bounds_enabled (bounds (options t))); reflexivity.
Qed.

(** [a * -1] is the negation of [a]. *)
Lemma nmul_minus_one (a : num) : a * lit (-1) = - a.
Proof.
  destruct a as [q| | |]; try reflexivity.
  unfold lit, dec. cbn [nmul nneg]. apply f_equal. qc_to_q. lra.
Qed.

(** The two clamps of the bounds block use comparisons only: whatever the
    two ends [u] and [l] are, the result lies between them, on the side of
    [l] the branch asks for. *)
Lemma clamp_large_between (u l v : num) :
  u <> NaN -> l <> NaN -> v <> NaN ->
  let r := Math_max (Math_min v u) l in
  nle l r /\ nle r (Math_max u l) /\ (nle l u -> nle r u).
Proof.
  intros Hu Hl Hv.
  destruct u as [u| | |], l as [l| | |], v as [v| | |]; try congruence;
    cbv zeta; num_eval; split_ltb; cbn;
    repeat split; try exact I; try tauto; try qc_lra.
Qed.

Lemma clamp_small_between (u l v : num) :
  u <> NaN -> l <> NaN -> v <> NaN ->
  let v1 := if v <? u then u else v in
  let r := if v1 >? l then l else v1 in
  nle r l /\ nle (Math_min u l) r /\ (nle l u -> nle l r).
Proof.
  intros Hu Hl Hv.
  destruct u as [u| | |], l as [l| | |], v as [v| | |]; try congruence;
    cbv zeta; num_eval; split_ltb; cbn;
    repeat split; try exact I; try tauto; try qc_lra.
Qed.

Lemma nle_trans (a b c : num) : nle a b -> nle b c -> nle a c.
Proof.
  destruct a as [a| | |], b as [b| | |], c as [c| | |]; cbn;
    try tauto. intros. qc_lra.
Qed.

Lemma Math_min_max_ends (u l : num) :
  u <> NaN -> l <> NaN -> nle (Math_min u l) l /\ nle l (Math_max u l).
Proof.
  intros Hu Hl.
  destruct u as [u| | |], l as [l| | |]; try congruence;
    num_eval; split_ltb; cbn; split; try exact I; qc_lra.
Qed.

Lemma fitAxis_between (c w z v : Qc) :
  let u := upperOffset (Fin c) (Fin z) in
  let l := lowerOffset (Fin c) (Fin w) (Fin z) in
  let r := fitAxis (Fin c) (Fin w) (Fin z) (Fin v) in
  within r (Math_min u l) (Math_max u l) /\
  (nle l u -> within r l u) /\
  (if Fin c * Fin z <? Fin w then nle r l else nle l r).
Proof.
  cbv zeta. unfold fitAxis, lowerOffset. rewrite nmul_minus_one.
  fold (upperOffset (Fin c) (Fin z)).
  set (u := upperOffset (Fin c) (Fin z)).
  set (l := - u + Fin w - Fin c).
  assert (Hu : u <> NaN)
    by (subst u; unfold upperOffset; num_eval; discriminate).
  assert (Hl : l <> NaN)
    by (subst l u; unfold upperOffset; num_eval; discriminate).
  assert (Hv : Fin v <> NaN) by discriminate.
  destruct (Math_min_max_ends u l Hu Hl) as [Hmin Hmax].
  clearbody u l. unfold within.
  destruct (Fin c * Fin z <? Fin w).
  - destruct (clamp_small_between u l (Fin v) Hu Hl Hv) as (H1 & H2 & H3).
    cbv zeta in H1, H2, H3.
    refine (conj (conj H2 _) (conj _ H1)).
    + exact (nle_trans _ _ _ H1 Hmax).
    + intros Hlu. split; [exact (H3 Hlu)|exact (nle_trans _ _ _ H1 Hlu)].
  - destruct (clamp_large_between u l (Fin v) Hu Hl Hv) as (H1 & H2 & H3).
    cbv zeta in H1, H2, H3.
    refine (conj (conj _ H2) (conj _ H1)).
    + exact (nle_trans _ _ _ Hmin H1).
    + intros Hlu. split; [exact H1|exact (H3 Hlu)].
Qed.

(** C2.  With bounds enabled and a finite position, [setPosition] leaves
    the zoom alone and puts each offset between the two ends
    [upperOffset] and [lowerOffset] of its axis, whichever of them is the
    smaller; the offset is inside [[lowerOffset, upperOffset]] whenever
    [lowerOffset <= upperOffset].  When the zoomed content is not smaller
    than the viewport the offset is at least [lowerOffset], otherwise it
    is at most [lowerOffset].  The proof compares the values only: it
    uses no law of the arithmetic that produces the two ends. *)
Theorem setPosition_within_bounds :
  forall (d : dom) (instant : bool) (t : domPanZoom) (z px py : Qc),
    pos t = {| zoom := Fin z; x := Fin px; y := Fin py |} ->
    bounds_enabled (bounds (options t)) = true ->
    let t' := setPosition d instant t in
    let cw := width (container d) in
    let ch := height (container d) in
    let ww := width (wrapper d) in
    let wh := height (wrapper d) in
    let upX := upperOffset cw (Fin z) in
    let loX := lowerOffset cw ww (Fin z) in
    let upY := upperOffset ch (Fin z) in
    let loY := lowerOffset ch wh (Fin z) in
    zoom (pos t') = Fin z /\
    within (x (pos t')) (Math_min upX loX) (Math_max upX loX) /\
    within (y (pos t')) (Math_min upY loY) (Math_max upY loY) /\
    (nle loX upX -> within (x (pos t')) loX upX) /\
    (nle loY upY -> within (y (pos t')) loY upY) /\
    (if cw * Fin z <? ww then nle (x (pos t')) loX
     else nle loX (x (pos t'))) /\
    (if ch * Fin z <? wh then nle (y (pos t')) loY
     else nle loY (y (pos t'))).
Proof.
  intros d instant t z px py Hpos Hb. cbv zeta.
  rewrite setPosition_pos, Hb, Hpos. cbn [zoom x y].
  unfold width, height, of_Z.
  destruct (fitAxis_between (ofZ (clientWidth (container d)))
              (ofZ (clientWidth (wrapper d))) z px) as (HX1 & HX2 & HX3).
  destruct (fitAxis_between (ofZ (clientHeight (container d)))
              (ofZ (clientHeight (wrapper d))) z py) as (HY1 & HY2 & HY3).
  cbv zeta in HX1, HX2, HX3, HY1, HY2, HY3.
  refine (conj eq_refl (conj HX1 (conj HY1 (conj HX2 (conj HY2
            (conj HX3 HY3)))))).
Qed.

Lemma setPosition_within_bounds_witness :
  let t := instanceAt defaultOptions (lit 2) (lit 500) (lit (-5000)) in
  let t' := setPosition scenarioA true t in
  within (x (pos t')) (lowerOffset (lit 1600) (lit 800) (lit 2))
                      (upperOffset (lit 1600) (lit 2)) /\
  within (y (pos t')) (lowerOffset (lit 1200) (lit 600) (lit 2))
                      (upperOffset (lit 1200) (lit 2)).
Proof.
  cbv zeta.
  pose proof (setPosition_within_bounds scenarioA true
                (instanceAt defaultOptions (lit 2) (lit 500) (lit (-5000)))
                (frac 2 1) (frac 500 1) (frac (-5000) 1) eq_refl eq_refl)
    as (_ & _ & _ & HX & HY & _).
  split; [apply HX | apply HY]; vm_compute; discriminate.
Defined.

(** C2, the claim as stated fails.  First, a commit does not repair an
    offset that is NaN: hide the surfaces (every size 0), ask for the
    [contain] zoom, show them again and zoom to 1.  The zoom is 1, the
    zoomed content (1600) is larger than the viewport (800), bounds are
    enabled, and [x] is NaN after the commit, inside no window.  Second, on
    doubles the two ends can change places although the zoomed content fills
    the viewport: for a content of 300 in a viewport of 100 at the
    [contain] zoom [100 / 300], [upperOffset] is -100.00000000000001 and
    [lowerOffset] is -100, and the offset the block returns, -100, is
    above [upperOffset]. *)
Lemma commit_outside_window :
  (let t0 := init scenarioA defaultOptions in
   let t1 := zoomTo (layout 0 0 0 0) zoom_contain true t0 in
   let t2 := zoomTo scenarioA (zoom_num (lit 1)) true t1 in
   let t3 := setPosition scenarioA true t2 in
   bounds_enabled (bounds (options t3)) = true /\
   zoom (pos t3) = lit 1 /\
   nle (lit 800) (lit 1600 * zoom (pos t3)) /\
   x (pos t3) = NaN /\
   ~ within (x (pos t3)) (lowerOffset (lit 1600) (lit 800) (lit 1))
                         (upperOffset (lit 1600) (lit 1))) /\
  (let z := (100 / 300)%float in
   let x0 := panToAxis64 300 100 z 50 in
   let x1 := fitAxis64 300 100 z x0 in
   (300 * z <? 100)%float = false /\
   upperOffset64 300 z = (-0x1.9000000000001p+6)%float /\
   lowerOffset64 300 100 z = (-100)%float /\
   x1 = (-100)%float /\
   (upperOffset64 300 z <? x1)%float = true).
Proof.
  split.
  - cbv zeta.
    assert (Hx : x (pos (setPosition scenarioA true
                  (zoomTo scenarioA (zoom_num (lit 1)) true
                     (zoomTo (layout 0 0 0 0) zoom_contain true
                        (init scenarioA defaultOptions))))) = NaN)
      by (vm_compute; reflexivity).
    rewrite Hx.
    refine (conj _ (conj _ (conj _ (conj eq_refl _)))).
    + vm_compute; reflexivity.
    + num_refl.
    + vm_compute. discriminate.
    + intros [H _]. exact H.
  - vm_compute. repeat split; reflexivity.
Qed.

(** ** Zoom limits (C1) *)

Lemma sanitizeZoom_num d z t :
  sanitizeZoom d (zoom_num z) t =
  (let z1 := if z <? minZoom (options t) then minZoom (options t) else z in
   if z1 >? maxZoom (options t) then maxZoom (options t) else z1, t).
Proof. reflexivity. Qed.

Lemma sanitizeZoom_options d z t :
  options (snd (sanitizeZoom d z t)) = options t.
Proof. destruct z; reflexivity. Qed.

Lemma sanitizeZoom_pinch d z t :
  pinch (snd (sanitizeZoom d z t)) = pinch t.
Proof. destruct z; reflexivity. Qed.

Lemma zoomTo_zoom d z instant t :
  zoom (pos (zoomTo d z instant t)) = fst (sanitizeZoom d z t).
Proof.
  unfold zoomTo. destruct (sanitizeZoom d z t) as [z' t'].
  rewrite setPosition_zoom. reflexivity.
Qed.

Lemma zoomTo_options d z instant t :
  options (zoomTo d z instant t) = options t.
Proof.
  unfold zoomTo. pose proof (sanitizeZoom_options d z t) as H.
  destruct (sanitizeZoom d z t) as [z' t'].
  rewrite setPosition_options. exact H.
Qed.

Lemma mouseWheelEvent_zoom d ev t :
  zoom (pos (mouseWheelEvent d ev t)) =
  fst (sanitizeZoom d
         (zoom_num (zoom (pos t)
                    * deltaAdjustedSpeed (zoomSpeedWheel (options t))
                        (wheelDelta ev))) t).
Proof.
  unfold mouseWheelEvent. rewrite sanitizeZoom_num. cbv zeta.
  rewrite setPosition_zoom. reflexivity.
Qed.

Lemma mouseWheelEvent_options d ev t :
  options (mouseWheelEvent d ev t) = options t.
Proof.
  unfold mouseWheelEvent. rewrite sanitizeZoom_num. cbv zeta.
  rewrite setPosition_options. reflexivity.
Qed.

(** What the two comparisons of [sanitizeZoom] leave of a request that is
    not NaN, between finite limits. *)
Lemma sanitize_range (z : num) (lo hi : Qc) :
  z <> NaN ->
  let z1 := if z <? Fin lo then Fin lo else z in
  let r := if z1 >? Fin hi then Fin hi else z1 in
  nle r (Fin hi) /\ ((lo <= hi)%Qc -> nle (Fin lo) r).
Proof.
  intros Hz. destruct z; try congruence; num_eval;
    split; intros; split_ltb; try exact I; qc_lra.
Qed.

Lemma sanitize_clamp (z lo hi : Qc) :
  (let z1 := if Fin z <? Fin lo then Fin lo else Fin z in
   if z1 >? Fin hi then Fin hi else z1) = clamp (Fin z) (Fin lo) (Fin hi).
Proof.
  unfold clamp. num_eval. split_ltb; reflexivity.
Qed.

Lemma deltaAdjustedSpeed_finite (s : Qc) (delta : num) :
  isFinite delta = true ->
  exists a, deltaAdjustedSpeed (Fin s) delta = Fin a.
Proof.
  destruct delta as [q| | |]; try discriminate. intros _.
  unfold deltaAdjustedSpeed, Math_sign. num_eval.
  split_ltb; eexists; reflexivity.
Qed.

Lemma wheelDelta_finite ev : isFinite (wheelDelta ev) = true.
Proof.
  unfold wheelDelta. destruct (0 <? deltaMode ev)%N; reflexivity.
Qed.

Lemma replacePointer_length ev cache :
  List.length (replacePointer ev cache) = List.length cache.
Proof.
  induction cache as [|c rest IH]; cbn [replacePointer]; [reflexivity|].
  destruct (pointerId ev =? pointerId c)%Z; cbn [List.length]; congruence.
Qed.

Lemma pointerMoveEvent_zoom d ev t :
  (exists ev0 ev1,
      replacePointer ev (evCache (pinch t)) = [ev0; ev1] /\
      zoom (pos (pointerMoveEvent d ev t)) =
      fst (sanitizeZoom d (zoom_num (pinchRequest d ev0 ev1 t)) t)) \/
  (List.length (replacePointer ev (evCache (pinch t))) <> 2%nat /\
   zoom (pos (pointerMoveEvent d ev t)) = zoom (pos t)).
Proof.
  unfold pointerMoveEvent.
  cbn [pinch with_pinch set_evCache evCache].
  destruct (replacePointer ev (evCache (pinch t))) as [|e0 [|e1 [|e2 r]]];
    try (right; split; [cbn; lia | reflexivity]).
  left. exists e0, e1. split; [reflexivity|].
  rewrite sanitizeZoom_num. cbv zeta.
  rewrite setPosition_zoom. reflexivity.
Qed.

Lemma pointerMoveEvent_options d ev t :
  options (pointerMoveEvent d ev t) = options t.
Proof.
  unfold pointerMoveEvent.
  cbn [pinch with_pinch set_evCache evCache].
  destruct (replacePointer ev (evCache (pinch t))) as [|e0 [|e1 [|e2 r]]];
    try reflexivity.
  rewrite sanitizeZoom_num. cbv zeta.
  rewrite setPosition_options. reflexivity.
Qed.

Lemma getTouchEventsDistance_finite ev0 ev1 :
  exists q, getTouchEventsDistance ev0 ev1 = Fin q.
Proof. unfold getTouchEventsDistance. num_eval. eexists. reflexivity. Qed.

Lemma pinchRequest_finite d ev0 ev1 t (zc pc sp : Qc) :
  (0 < clientWidth (container d))%Z ->
  zoomCache (pinch t) = Fin zc ->
  pinchDiffCache (pinch t) = Fin pc ->
  zoomSpeedPinch (options t) = Fin sp ->
  pinchRequest d ev0 ev1 t <> NaN.
Proof.
  intros Hw Hz Hp Hs. unfold pinchRequest.
  destruct (getTouchEventsDistance_finite ev0 ev1) as [q ->].
  rewrite Hz, Hp, Hs. num_eval. rewrite (ofZ_nonzero _ Hw). discriminate.
Qed.

Lemma panTo_zoom d px py instant ign t :
  zoom (pos (panTo d px py instant ign t)) = zoom (pos t).
Proof.
  unfold panTo. cbv zeta. destruct ign; cbn [negb].
  - reflexivity.
  - rewrite setPosition_zoom. reflexivity.
Qed.

Lemma panTo_options d px py instant ign t :
  options (panTo d px py instant ign t) = options t.
Proof.
  unfold panTo. cbv zeta. destruct ign; cbn [negb].
  - reflexivity.
  - rewrite setPosition_options. reflexivity.
Qed.

Lemma init_options d o :
  options (init d o) = set_minZoom o (minZoomAfterInit d o).
Proof.
  unfold init, minZoomAfterInit. cbv zeta.
  match goal with
  | |- options (let '(z, t) := sanitizeZoom ?D ?Z ?T in _) = _ =>
      pose proof (sanitizeZoom_options D Z T) as H;
      destruct (sanitizeZoom D Z T) as [z t']
  end.
  cbn [snd] in H.
  assert (E : options (set_xy (initialPanX (options (set_zoom z t')))
                              (initialPanY (options (set_zoom z t')))
                              (set_zoom z t')) = options t') by reflexivity.
  destruct (center_option _); unfold center; rewrite panTo_options, E, H;
    destruct o as [c b mn mx ps zs zw zp iz ix iy]; destruct b; reflexivity.
Qed.

Lemma init_zoom d o :
  zoom (pos (init d o)) =
  fst (sanitizeZoom d (initialZoom o)
         (blank (set_minZoom o (minZoomAfterInit d o)))).
Proof.
  unfold init, minZoomAfterInit. cbv zeta.
  destruct o as [c b mn mx ps zs zw zp iz ix iy].
  destruct b, iz, c; cbn -[Math_max Math_min ndiv nlt ngt width height];
    unfold center; rewrite ?panTo_zoom; reflexivity.
Qed.

Lemma sanitizeZoom_fst d z t :
  fst (sanitizeZoom d z t) =
  (let z0 := requestedZoom d z in
   let z1 := if z0 <? minZoom (options t) then minZoom (options t) else z0 in
   if z1 >? maxZoom (options t) then maxZoom (options t) else z1).
Proof. destruct z; reflexivity. Qed.

Lemma ratio_finite (a b : Z) :
  (0 < b)%Z -> exists q, of_Z a / of_Z b = Fin q.
Proof.
  intro H. num_eval. rewrite (ofZ_nonzero _ H). eexists. reflexivity.
Qed.

Lemma requestedZoom_not_NaN d z :
  (0 < clientWidth (container d))%Z ->
  (0 < clientHeight (container d))%Z ->
  validZoomValue z ->
  exists q, requestedZoom d z = Fin q.
Proof.
  intros Hw Hh Hz. unfold requestedZoom, width, height. cbv zeta.
  destruct (ratio_finite (clientWidth (wrapper d)) _ Hw) as [a ->].
  destruct (ratio_finite (clientHeight (wrapper d)) _ Hh) as [b ->].
  destruct z as [| |[q| | |]]; try discriminate Hz;
    num_eval; split_ltb; eexists; reflexivity.
Qed.

Lemma minZoomAfterInit_finite d o (lo : Qc) :
  (0 < clientWidth (container d))%Z ->
  (0 < clientHeight (container d))%Z ->
  minZoom o = Fin lo ->
  exists lo', minZoomAfterInit d o = Fin lo' /\ (lo <= lo')%Qc.
Proof.
  intros Hw Hh Hlo. unfold minZoomAfterInit, width, height. cbv zeta.
  destruct (ratio_finite (clientWidth (wrapper d)) _ Hw) as [a ->].
  destruct (ratio_finite (clientHeight (wrapper d)) _ Hh) as [b ->].
  rewrite Hlo.
  destruct (bounds o); num_eval; split_ltb; eexists; split;
    try reflexivity; qc_lra.
Qed.

(** C1, as the program has it.  Between finite limits [sanitizeZoom] is
    [clamp] on every finite request.  The zoom is at most [maxZoom], and at
    least [minZoom] provided [minZoom <= maxZoom], after [zoomTo] with a
    finite number; after [zoomTo] with any finite or symbolic request when
    the content surface has a positive width and height; after a wheel
    event on a finite zoom with a finite non-zero [zoomSpeedWheel]; after a
    pinch update, that is a pointer move on a cache of two, when the
    content is wider than 0, the cached zoom and [zoomSpeedPinch] are
    finite and non-zero and the cached finger distance is finite (a move
    on a cache of another size leaves the zoom alone); and
    after [init] on a content surface of positive width and height, with
    the limits [init] leaves in the options.  There [minZoom <= maxZoom]
    is not ensured: [init] raises [minZoom] for the bounds without looking
    at [maxZoom].  The non-zero factors keep a product from being
    [0 * Infinity] when another product overflows on doubles. *)
Theorem zoom_limits (d : dom) (lo hi : Qc) :
  (forall t : domPanZoom,
      minZoom (options t) = Fin lo ->
      maxZoom (options t) = Fin hi ->
      (forall z : Qc,
          sanitizeZoom d (zoom_num (Fin z)) t
          = (clamp (Fin z) (Fin lo) (Fin hi), t)) /\
      (forall (z : Qc) (instant : bool),
          let t' := zoomTo d (zoom_num (Fin z)) instant t in
          zoomAtMostMax t' /\ ((lo <= hi)%Qc -> zoomInRange t')) /\
      (forall (z : zoomValue) (instant : bool),
          (0 < clientWidth (container d))%Z ->
          (0 < clientHeight (container d))%Z ->
          validZoomValue z ->
          let t' := zoomTo d z instant t in
          zoomAtMostMax t' /\ ((lo <= hi)%Qc -> zoomInRange t')) /\
      (forall (ev : WheelEvent) (zc s : Qc),
          zoom (pos t) = Fin zc ->
          zoomSpeedWheel (options t) = Fin s ->
          s <> 0%Qc ->
          let t' := mouseWheelEvent d ev t in
          zoomAtMostMax t' /\ ((lo <= hi)%Qc -> zoomInRange t')) /\
      (forall (ev : PointerEvent) (zc pc sp : Qc),
          (0 < clientWidth (container d))%Z ->
          zoomCache (pinch t) = Fin zc ->
          zc <> 0%Qc ->
          pinchDiffCache (pinch t) = Fin pc ->
          zoomSpeedPinch (options t) = Fin sp ->
          sp <> 0%Qc ->
          let t' := pointerMoveEvent d ev t in
          (List.length (evCache (pinch t)) = 2%nat ->
           zoomAtMostMax t' /\ ((lo <= hi)%Qc -> zoomInRange t')) /\
          (List.length (evCache (pinch t)) <> 2%nat ->
           zoom (pos t') = zoom (pos t)))) /\
  (forall o : Options,
      (0 < clientWidth (container d))%Z ->
      (0 < clientHeight (container d))%Z ->
      minZoom o = Fin lo ->
      maxZoom o = Fin hi ->
      validZoomValue (initialZoom o) ->
      let t' := init d o in
      zoomAtMostMax t' /\
      (nle (minZoom (options t')) (maxZoom (options t')) -> zoomInRange t')).
Proof.
  split.
  - intros t Hlo Hhi.
    assert (R : forall (t' : domPanZoom) (z : zoomValue),
               options t' = options t -> requestedZoom d z <> NaN ->
               zoom (pos t') = fst (sanitizeZoom d z t) ->
               zoomAtMostMax t' /\ ((lo <= hi)%Qc -> zoomInRange t')).
    { intros t' z Ho Hz Hzoom.
      unfold zoomAtMostMax, zoomInRange.
      rewrite Ho, Hlo, Hhi, Hzoom, sanitizeZoom_fst, Hlo, Hhi. cbv zeta.
      destruct (sanitize_range (requestedZoom d z) lo hi Hz) as [A B].
      split; [exact A | intro L; split; [exact (B L) | exact A]]. }
    refine (conj _ (conj _ (conj _ (conj _ _)))).
    + intros z. rewrite sanitizeZoom_num, Hlo, Hhi. cbv zeta.
      rewrite sanitize_clamp. reflexivity.
    + intros z instant. cbv zeta.
      apply (R _ (zoom_num (Fin z)));
        [apply zoomTo_options | discriminate | apply zoomTo_zoom].
    + intros z instant Hw Hh Hv. cbv zeta.
      apply (R _ z); [apply zoomTo_options | | apply zoomTo_zoom].
      destruct (requestedZoom_not_NaN d z Hw Hh Hv) as [q ->]. discriminate.
    + intros ev zc s Hz Hs _. cbv zeta.
      destruct (deltaAdjustedSpeed_finite s (wheelDelta ev) (wheelDelta_finite ev))
        as [a Ha].
      apply (R _ (zoom_num (Fin zc * Fin a)));
        [apply mouseWheelEvent_options | discriminate |].
      rewrite mouseWheelEvent_zoom, Hz, Hs, Ha. reflexivity.
    + intros ev zc pc sp Hw Hz _ Hp Hs _. cbv zeta.
      destruct (pointerMoveEvent_zoom d ev t) as [(e0 & e1 & L & E) | [L E]].
      * split; [intros _ | intros N; exfalso; apply N;
                            rewrite <- (replacePointer_length ev), L;
                            reflexivity].
        apply (R _ (zoom_num (pinchRequest d e0 e1 t)));
          [apply pointerMoveEvent_options
          | exact (pinchRequest_finite d e0 e1 t zc pc sp Hw Hz Hp Hs)
          | exact E].
      * rewrite replacePointer_length in L.
        split; [intros N; exfalso; exact (L N) | intros _; exact E].
  - intros o Hw Hh Hlo Hhi Hv. cbv zeta.
    unfold zoomAtMostMax, zoomInRange.
    rewrite init_options, init_zoom, sanitizeZoom_fst.
    destruct (minZoomAfterInit_finite d o lo Hw Hh Hlo) as (lo' & -> & _).
    destruct (requestedZoom_not_NaN d (initialZoom o) Hw Hh Hv) as [q ->].
    cbn [options blank set_minZoom minZoom maxZoom]. rewrite Hhi. cbv zeta.
    assert (Hq : Fin q <> NaN) by discriminate.
    destruct (sanitize_range (Fin q) lo' hi Hq) as [A B].
    split; [exact A | intro L; split; [exact (B L) | exact A]].
Qed.

Lemma zoom_limits_witness :
  zoomInRange
    (zoomTo scenarioA (zoom_num (lit 100)) true (init scenarioA defaultOptions)).
Proof.
  assert (Hlo : minZoom (options (init scenarioA defaultOptions))
                = Fin (frac 1 2)) by num_refl.
  assert (Hhi : maxZoom (options (init scenarioA defaultOptions))
                = Fin (frac 10 1)) by num_refl.
  destruct (proj1 (zoom_limits scenarioA (frac 1 2) (frac 10 1))
              (init scenarioA defaultOptions) Hlo Hhi) as (_ & HzoomTo & _).
  apply (HzoomTo (frac 100 1) true).
  vm_compute. discriminate.
Defined.

(** With the default options and a content surface 20 times smaller than the
    viewport, [init] raises [minZoom] to 20 and leaves the zoom at
    [maxZoom = 10]. *)
Lemma init_zoom_below_minZoom :
  let t := init tinyContent defaultOptions in
  zoom (pos t) = lit 10 /\ minZoom (options t) = lit 20 /\
  maxZoom (options t) = lit 10 /\ ~ zoomInRange t.
Proof.
  cbv zeta. repeat split; try num_refl.
  intros [H _]. vm_compute in H. apply H. reflexivity.
Qed.

(** * Further properties of the code *)

(** ** Pinch distance *)

From Stdlib Require Qabs Zdivisibility.

Lemma Qcsqrt_square (q : Qc) : Qcsqrt (q * q)%Qc = Qcabs q.
Proof.
  destruct q as [[n m] Hc].
  assert (G : Zdivisibility.Z.coprime n (Zpos m)) by (apply Qred_iff in Hc; exact Hc).
  assert (G2 : Z.gcd (n * n) (Zpos (m * m)) = 1%Z).
  { rewrite Pos2Z.inj_mul.
    apply Zdivisibility.Z.coprime_mul_l; apply Zdivisibility.Z.coprime_mul_r; exact G. }
  apply Qc_is_canon. unfold Qcsqrt, Qcmult, Q2Qc. cbn [this].
  rewrite Qred_correct.
  assert (E : Qred ((n # m) * (n # m)) = (n * n # m * m)%Q).
  { apply Qred_iff. exact G2. }
  rewrite E. cbn [Qnum Qden Qabs.Qabs].
  assert (En : Z.sqrt (n * n) = Z.abs n).
  { rewrite <- Z.abs_square. apply Z.sqrt_square. apply Z.abs_nonneg. }
  assert (Em : Pos.sqrt (m * m) = m).
  { apply Pos2Z.inj. rewrite Pos2Z.inj_sqrt, Pos2Z.inj_mul.
    apply Z.sqrt_square. lia. }
  rewrite En, Em. reflexivity.
Qed.

Lemma hypot_zero_l (p q : Qc) :
  Math_hypot (Fin (p - p)%Qc) (Fin q) = Fin (Qcabs q).
Proof.
  cbn [Math_hypot]. f_equal.
  replace ((p - p) * (p - p) + q * q)%Qc with (q * q)%Qc by ring.
  apply Qcsqrt_square.
Qed.

Lemma Qcabs_idem (q : Qc) : Qcabs (Qcabs q) = Qcabs q.
Proof. apply Qcabs_pos, Qcabs_nonneg. Qed.

Lemma getTouchEventsDistance_eq (a b : PointerEvent) :
  getTouchEventsDistance a b = Fin (Qcabs (pageY a - pageY b)%Qc).
Proof.
  unfold getTouchEventsDistance.
  cbv beta iota delta [nsub nadd nneg].
  change (pageX a + - pageX a)%Qc with (pageX a - pageX a)%Qc.
  rewrite hypot_zero_l. cbn [Math_abs]. rewrite Qcabs_idem. reflexivity.
Qed.

(** X1.  The distance [pointerDownEvent] and [pointerMoveEvent] measure between
    two pointers is their vertical separation: the first argument of
    [Math.hypot] subtracts [ev1.pageX] from itself.  So the distance does not
    depend on any [pageX], it is symmetric, and it is zero for two pointers
    on one horizontal line. *)
Theorem getTouchEventsDistance_vertical (ev1 ev2 : PointerEvent) :
  getTouchEventsDistance ev1 ev2 = Fin (Qcabs (pageY ev1 - pageY ev2)%Qc) /\
  getTouchEventsDistance ev1 ev2 = getTouchEventsDistance ev2 ev1 /\
  (pageY ev1 = pageY ev2 -> getTouchEventsDistance ev1 ev2 = lit 0).
Proof.
  pose proof getTouchEventsDistance_eq as E.
  split; [apply E|]. split.
  - rewrite !E. f_equal.
    replace (pageY ev2 - pageY ev1)%Qc with (- (pageY ev1 - pageY ev2))%Qc by ring.
    symmetry. apply Qcabs_opp.
  - intros Hy. rewrite E, Hy.
    replace (pageY ev2 - pageY ev2)%Qc with (Q2Qc 0) by ring.
    unfold lit, dec. f_equal. apply Qc_is_canon. reflexivity.
Qed.

Lemma getTouchEventsDistance_vertical_witness :
  getTouchEventsDistance
    {| pointerId := 1; pageX := frac 100 1; pageY := frac 100 1;
       pointerClientX := frac 100 1; pointerClientY := frac 100 1;
       pointerTarget := [] |}
    {| pointerId := 2; pageX := frac 200 1; pageY := frac 100 1;
       pointerClientX := frac 200 1; pointerClientY := frac 100 1;
       pointerTarget := [] |} = lit 0.
Proof.
  apply (proj2 (proj2 (getTouchEventsDistance_vertical _ _))). reflexivity.
Defined.

(** ** The pointer cache *)

Lemma setPosition_pinch d instant t :
  pinch (setPosition d instant t) = pinch t.
Proof.
  unfold setPosition.
  destruct (bounds_enabled (bounds (options (transition (negb instant) t))));
    reflexivity.
Qed.

Lemma replacePointer_ids ev cache :
  map pointerId (replacePointer ev cache) = map pointerId cache.
Proof.
  induction cache as [|c rest IH]; cbn [replacePointer]; [reflexivity|].
  destruct (pointerId ev =? pointerId c)%Z eqn:E; cbn [map].
  - apply Z.eqb_eq in E. rewrite E. reflexivity.
  - rewrite IH. reflexivity.
Qed.

Lemma replacePointer_absent ev cache :
  cached ev cache = false -> replacePointer ev cache = cache.
Proof.
  induction cache as [|c rest IH]; cbn [replacePointer cached existsb];
    [reflexivity|].
  intros H. apply orb_false_iff in H. destruct H as [Hc Hr].
  rewrite Z.eqb_sym, Hc. f_equal. apply IH. exact Hr.
Qed.

Lemma removePointer_length ev cache :
  List.length (removePointer ev cache) =
  (if cached ev cache then List.length cache - 1 else List.length cache)%nat.
Proof.
  induction cache as [|c rest IH]; cbn [removePointer cached existsb];
    [reflexivity|].
  destruct (pointerId c =? pointerId ev)%Z; cbn [orb List.length].
  - lia.
  - fold (cached ev rest). rewrite IH.
    destruct (cached ev rest) eqn:E; [|reflexivity].
    destruct rest; [discriminate E | cbn [List.length]; lia].
Qed.

Lemma removePointer_absent ev cache :
  cached ev cache = false -> removePointer ev cache = cache.
Proof.
  induction cache as [|c rest IH]; cbn [removePointer cached existsb];
    [reflexivity|].
  intros H. apply orb_false_iff in H. destruct H as [Hc Hr].
  rewrite Hc. f_equal. apply IH. exact Hr.
Qed.

Lemma pointerDownEvent_evCache ev t :
  evCache (pinch (pointerDownEvent ev t)) = evCache (pinch t) ++ [ev].
Proof.
  unfold pointerDownEvent. cbv zeta.
  destruct (evCache (pinch t) ++ [ev]) as [|e0 [|e1 [|e2 r]]]; reflexivity.
Qed.

Lemma pointerDownEvent_pos ev t : pos (pointerDownEvent ev t) = pos t.
Proof.
  unfold pointerDownEvent. cbv zeta.
  destruct (evCache (pinch t) ++ [ev]) as [|e0 [|e1 [|e2 r]]]; reflexivity.
Qed.

Lemma pointerDownEvent_blockPan ev t :
  blockPan (pinch (pointerDownEvent ev t)) =
  if (List.length (evCache (pinch t)) =? 1)%nat then true
  else blockPan (pinch t).
Proof.
  unfold pointerDownEvent. cbv zeta.
  destruct (evCache (pinch t)) as [|e0 [|e1 [|e2 r]]]; reflexivity.
Qed.

Lemma pointerMoveEvent_pinch d ev t :
  pinch (pointerMoveEvent d ev t) =
  set_evCache (replacePointer ev (evCache (pinch t))) (pinch t).
Proof.
  unfold pointerMoveEvent.
  cbn [pinch with_pinch set_evCache evCache].
  destruct (replacePointer ev (evCache (pinch t))) as [|e0 [|e1 [|e2 r]]];
    try reflexivity.
  rewrite sanitizeZoom_num. cbv zeta.
  rewrite setPosition_pinch. reflexivity.
Qed.

Lemma pointerUpEvent_evCache ev t :
  evCache (pinch (pointerUpEvent ev t)) = removePointer ev (evCache (pinch t)).
Proof.
  unfold pointerUpEvent. cbv zeta.
  cbn [pinch with_pinch set_evCache evCache].
  destruct (List.length (removePointer ev (evCache (pinch t))) <? 2)%nat;
    reflexivity.
Qed.

Lemma pointerUpEvent_blockPan ev t :
  blockPan (pinch (pointerUpEvent ev t)) =
  if (List.length (removePointer ev (evCache (pinch t))) <? 2)%nat then false
  else blockPan (pinch t).
Proof.
  unfold pointerUpEvent. cbv zeta.
  cbn [pinch with_pinch set_evCache evCache].
  destruct (List.length (removePointer ev (evCache (pinch t))) <? 2)%nat;
    reflexivity.
Qed.

Lemma pointerUpEvent_pos ev t : pos (pointerUpEvent ev t) = pos t.
Proof.
  unfold pointerUpEvent. cbv zeta.
  cbn [pinch with_pinch set_evCache evCache].
  destruct (List.length (removePointer ev (evCache (pinch t))) <? 2)%nat;
    reflexivity.
Qed.

(** X2.  [pointerDownEvent] pushes without looking at the size of the cache: a
    run of pointer-down events appends them all, so the cache is not limited
    to two entries. *)
Theorem pointerdown_run_appends (d : dom) (evs : list PointerEvent) :
  forall t : domPanZoom,
    evCache (pinch (pointerRun d t (map pointerdown evs)))
    = evCache (pinch t) ++ evs /\
    pos (pointerRun d t (map pointerdown evs)) = pos t.
Proof.
  unfold pointerRun.
  induction evs as [|ev evs IH]; intros t; cbn [map fold_left pointerStep].
  - rewrite app_nil_r. split; reflexivity.
  - destruct (IH (pointerDownEvent ev t)) as [Hc Hp].
    rewrite Hc, Hp, pointerDownEvent_evCache, pointerDownEvent_pos, <- app_assoc.
    split; reflexivity.
Qed.

Lemma removePointer_split ev pre c post :
  cached ev pre = false ->
  pointerId c = pointerId ev ->
  removePointer ev (pre ++ c :: post) = pre ++ post.
Proof.
  intros Hpre Hc.
  induction pre as [|p pre IH]; cbn [app removePointer].
  - rewrite Hc, Z.eqb_refl. reflexivity.
  - cbn [cached existsb] in Hpre. apply orb_false_iff in Hpre.
    destruct Hpre as [Hp Hrest]. rewrite Hp. f_equal. apply IH. exact Hrest.
Qed.

(** X3.  [pointerUpEvent] splices out the first entry of the pointer and no
    other: when the cache is [pre ++ c :: post] with [c] the first entry
    that has the id of the event, it becomes [pre ++ post]; a cache without
    such an entry is left as it is.  So the cache shrinks by one entry
    exactly when the pointer is cached.  The position is not touched, and
    [blockPan] is cleared exactly when fewer than two entries remain. *)
Theorem pointerUpEvent_effect (ev : PointerEvent) (t : domPanZoom) :
  let t' := pointerUpEvent ev t in
  (forall (pre post : list PointerEvent) (c : PointerEvent),
     evCache (pinch t) = pre ++ c :: post ->
     cached ev pre = false ->
     pointerId c = pointerId ev ->
     evCache (pinch t') = pre ++ post) /\
  (cached ev (evCache (pinch t)) = false ->
     evCache (pinch t') = evCache (pinch t)) /\
  List.length (evCache (pinch t')) =
    (if cached ev (evCache (pinch t))
     then List.length (evCache (pinch t)) - 1
     else List.length (evCache (pinch t)))%nat /\
  pos t' = pos t /\
  blockPan (pinch t') =
    (if (List.length (evCache (pinch t')) <? 2)%nat then false
     else blockPan (pinch t)).
Proof.
  cbv zeta.
  rewrite pointerUpEvent_evCache, pointerUpEvent_pos, pointerUpEvent_blockPan.
  refine (conj _ (conj _ (conj _ (conj eq_refl eq_refl)))).
  - intros pre post c E Hpre Hc. rewrite E.
    apply removePointer_split; assumption.
  - apply removePointer_absent.
  - apply removePointer_length.
Qed.

Lemma pointerUpEvent_effect_witness :
  let t := with_pinch
             (set_evCache [finger 1 10 10; finger 2 20 20; finger 3 30 30;
                           finger 2 40 40]
                (pinch (blank defaultOptions)))
             (blank defaultOptions) in
  evCache (pinch (pointerUpEvent (finger 2 25 25) t))
  = [finger 1 10 10; finger 3 30 30; finger 2 40 40].
Proof.
  cbv zeta.
  exact (proj1 (pointerUpEvent_effect (finger 2 25 25)
                  (with_pinch
                     (set_evCache [finger 1 10 10; finger 2 20 20;
                                   finger 3 30 30; finger 2 40 40]
                        (pinch (blank defaultOptions)))
                     (blank defaultOptions)))
           [finger 1 10 10] [finger 3 30 30; finger 2 40 40]
           (finger 2 20 20) eq_refl eq_refl eq_refl).
Defined.

(** X4.  [pointerMoveEvent] keeps the size of the cache and the pointer ids in
    it, and leaves the cache alone when the moving pointer is not cached.
    Unless the cache holds exactly two entries, the position is not touched
    either. *)
Theorem pointerMoveEvent_cache (d : dom) (ev : PointerEvent) (t : domPanZoom) :
  let t' := pointerMoveEvent d ev t in
  map pointerId (evCache (pinch t')) = map pointerId (evCache (pinch t)) /\
  List.length (evCache (pinch t')) = List.length (evCache (pinch t)) /\
  (cached ev (evCache (pinch t)) = false -> pinch t' = pinch t) /\
  (List.length (evCache (pinch t)) <> 2%nat -> pos t' = pos t).
Proof.
  cbv zeta. rewrite pointerMoveEvent_pinch.
  cbn [evCache set_evCache].
  refine (conj _ (conj _ (conj _ _))).
  - apply replacePointer_ids.
  - apply replacePointer_length.
  - intros H. rewrite (replacePointer_absent _ _ H).
    destruct (pinch t); reflexivity.
  - intros H. unfold pointerMoveEvent.
    cbn [pinch with_pinch set_evCache evCache].
    pose proof (replacePointer_length ev (evCache (pinch t))) as L.
    destruct (replacePointer ev (evCache (pinch t))) as [|e0 [|e1 [|e2 r]]];
      try reflexivity.
    cbn [List.length] in L. congruence.
Qed.

Lemma pointerMoveEvent_cache_witness :
  let ev := {| pointerId := 7; pageX := frac 1 1; pageY := frac 2 1;
               pointerClientX := frac 1 1; pointerClientY := frac 2 1;
               pointerTarget := [] |} in
  pinch (pointerMoveEvent scenarioA ev (blank defaultOptions))
  = pinch (blank defaultOptions) /\
  pos (pointerMoveEvent scenarioA ev (blank defaultOptions))
  = pos (blank defaultOptions).
Proof.
  cbv zeta.
  destruct (pointerMoveEvent_cache scenarioA
              {| pointerId := 7; pageX := frac 1 1; pageY := frac 2 1;
                 pointerClientX := frac 1 1; pointerClientY := frac 2 1;
                 pointerTarget := [] |} (blank defaultOptions))
    as (_ & _ & Hp & Hq).
  split; [apply Hp; reflexivity | apply Hq; cbn; discriminate].
Defined.

Lemma pointerStep_blockPanAgrees d t i :
  blockPanAgrees t -> blockPanAgrees (pointerStep d t i).
Proof.
  unfold blockPanAgrees. intros H. destruct i as [ev|ev|ev]; cbn [pointerStep].
  - rewrite pointerDownEvent_blockPan, pointerDownEvent_evCache, H.
    rewrite length_app. cbn [List.length].
    destruct (evCache (pinch t)) as [|e0 [|e1 r]]; reflexivity.
  - rewrite pointerMoveEvent_pinch. cbn [blockPan evCache set_evCache].
    rewrite replacePointer_length. exact H.
  - rewrite pointerUpEvent_blockPan, pointerUpEvent_evCache, H.
    pose proof (removePointer_length ev (evCache (pinch t))) as L.
    destruct (List.length (removePointer ev (evCache (pinch t))) <? 2)%nat eqn:E.
    + apply Nat.ltb_lt in E. symmetry. apply Nat.leb_gt. exact E.
    + apply Nat.ltb_ge in E.
      transitivity true; [|symmetry]; apply Nat.leb_le; [|exact E].
      destruct (cached ev (evCache (pinch t))); lia.
Qed.

(** X5.  Along every run of pointer events, [blockPan] is set exactly while the
    cache holds at least two entries, provided that was so at the start (as
    it is right after [init]). *)
Theorem pointerRun_blockPanAgrees (d : dom) (inputs : list pointerInput) :
  forall t : domPanZoom,
    blockPanAgrees t -> blockPanAgrees (pointerRun d t inputs).
Proof.
  unfold pointerRun.
  induction inputs as [|i inputs IH]; intros t H; cbn [fold_left].
  - exact H.
  - apply IH, pointerStep_blockPanAgrees, H.
Qed.

(** ** Committing a position *)

(** The two ends of the clamp window, ordered by the size test. *)
Lemma window_order (c w z : Qc) :
  let u := (c / frac 2 1 * (z + - frac 1 1))%Qc in
  let l := (u * frac (-1) 1 + w + - c)%Qc in
  (Qcltb (c * z) w = true -> (u < l)%Qc) /\
  (Qcltb (c * z) w = false -> (l <= u)%Qc).
Proof.
  cbv zeta. split; intros H; qc_lra.
Qed.

(** What [fitAxis] returns: a value of the window, and the offset itself
    when that is in the window already. *)
Lemma fitAxis_spec (c w z v : Qc) :
  let u := (c / frac 2 1 * (z + - frac 1 1))%Qc in
  let l := (u * frac (-1) 1 + w + - c)%Qc in
  exists r : Qc,
    fitAxis (Fin c) (Fin w) (Fin z) (Fin v) = Fin r /\
    ((u <= r <= l)%Qc \/ (l <= r <= u)%Qc) /\
    (((u <= v <= l)%Qc \/ (l <= v <= u)%Qc) -> r = v).
Proof.
  cbv zeta. unfold fitAxis. num_eval.
  destruct (window_order c w z) as [Hs Hl].
  cbv zeta in Hs, Hl.
  set (u := (c / frac 2 1 * (z + - frac 1 1))%Qc) in *.
  set (l := (u * frac (-1) 1 + w + - c)%Qc) in *.
  destruct (Qcltb (c * z) w) eqn:E;
    [specialize (Hs eq_refl); clear Hl | specialize (Hl eq_refl); clear Hs];
    clearbody l; clearbody u; clear E;
    split_ltb; eexists; (split; [reflexivity|]);
    (split; [| intros [[A B]|[A B]]]); try qc_lra;
    first [left; split; qc_lra | right; split; qc_lra].
Qed.

Lemma fitAxis_idempotent (c w z v : Qc) :
  fitAxis (Fin c) (Fin w) (Fin z) (fitAxis (Fin c) (Fin w) (Fin z) (Fin v))
  = fitAxis (Fin c) (Fin w) (Fin z) (Fin v).
Proof.
  destruct (fitAxis_spec c w z v) as (r & -> & Hin & _).
  destruct (fitAxis_spec c w z r) as (r' & -> & _ & Hfix).
  f_equal. apply Hfix. exact Hin.
Qed.

Lemma setPosition_transition d instant t :
  transitionEnabled (setPosition d instant t) = negb instant.
Proof.
  unfold setPosition.
  destruct (bounds_enabled (bounds (options (transition (negb instant) t))));
    reflexivity.
Qed.

Lemma instance_ext (a b : domPanZoom) :
  options a = options b -> pos a = pos b -> pinch a = pinch b ->
  transitionEnabled a = transitionEnabled b -> a = b.
Proof.
  destruct a, b. cbn. intros -> -> -> ->. reflexivity.
Qed.

(** X6.  Committing twice is committing once: on a finite position a second
    [setPosition] under the same layout changes nothing but the transition
    flag, which follows the last call. *)
Theorem setPosition_idempotent (d : dom) (i1 i2 : bool) (t : domPanZoom)
  (z px py : Qc) :
  pos t = {| zoom := Fin z; x := Fin px; y := Fin py |} ->
  setPosition d i2 (setPosition d i1 t) = setPosition d i2 t.
Proof.
  intros Hpos. apply instance_ext.
  - rewrite !setPosition_options. reflexivity.
  - rewrite !setPosition_pos, setPosition_options.
    destruct (bounds_enabled (bounds (options t))); [|reflexivity].
    rewrite Hpos. cbn [zoom x y]. unfold width, height, of_Z.
    rewrite !fitAxis_idempotent. reflexivity.
  - rewrite !setPosition_pinch. reflexivity.
  - rewrite !setPosition_transition. reflexivity.
Qed.

Lemma setPosition_idempotent_witness :
  let t := instanceAt defaultOptions (lit 2) (lit 500) (lit (-5000)) in
  setPosition scenarioA true (setPosition scenarioA false t)
  = setPosition scenarioA true t.
Proof.
  cbv zeta.
  apply (setPosition_idempotent scenarioA false true _
           (frac 2 1) (frac 500 1) (frac (-5000) 1)).
  reflexivity.
Defined.

(** ** The stepping methods *)




(** ** The wheel *)

Lemma deltaAdjustedSpeed_bounds (s dl : Qc) :
  exists a : Qc,
    deltaAdjustedSpeed (Fin s) (Fin dl) = Fin a /\
    (frac 3 4 <= a <= frac 5 4)%Qc /\
    ((dl < 0)%Qc -> (1 <= a)%Qc) /\
    ((0 < dl)%Qc -> (a <= 1)%Qc) /\
    (dl = Q2Qc 0 -> a = Q2Qc 1).
Proof.
  unfold deltaAdjustedSpeed, Math_sign. num_eval.
  pose proof (Qcabs_nonneg (s * dl / frac 128 1)%Qc) as Hm.
  set (m := Qcabs (s * dl / frac 128 1)%Qc) in *. clearbody m.
  split_ltb; eexists; (split; [reflexivity|]);
    (refine (conj _ (conj _ (conj _ _)));
    [ split; qc_lra | intros Hd; qc_lra | intros Hd; qc_lra
    | intros Hd; qc_lra ]).
Qed.

Lemma wheelDelta_sign (ev : WheelEvent) :
  exists dl : Qc,
    wheelDelta ev = Fin dl /\
    ((deltaY ev < 0)%Qc -> (dl < 0)%Qc) /\
    ((0 < deltaY ev)%Qc -> (0 < dl)%Qc) /\
    (deltaY ev = Q2Qc 0 -> dl = Q2Qc 0).
Proof.
  unfold wheelDelta. destruct (0 <? deltaMode ev)%N.
  - num_eval. eexists. split; [reflexivity|].
    repeat split; intros H; qc_lra.
  - eexists. split; [reflexivity|]. repeat split; intros H; exact H.
Qed.

(** Scaling a positive zoom by a factor and applying the limits. *)
Lemma scale_sanitize (z a lo hi : Qc) :
  (0 < z)%Qc ->
  exists z' : Qc,
    (let z0 := Fin z * Fin a in
     let z1 := if z0 <? Fin lo then Fin lo else z0 in
     if z1 >? Fin hi then Fin hi else z1) = Fin z' /\
    (z' <= hi)%Qc /\
    ((1 <= a)%Qc -> (z <= hi)%Qc -> (z <= z')%Qc) /\
    ((a <= 1)%Qc -> (lo <= z)%Qc -> (z' <= z)%Qc) /\
    (a = Q2Qc 1 -> (lo <= z <= hi)%Qc -> z' = z).
Proof.
  intros Hz. cbv zeta. num_eval.
  assert (P1 : (1 <= a)%Qc -> (z <= z * a)%Qc) by (intros; qc_nra).
  assert (P2 : (a <= 1)%Qc -> (z * a <= z)%Qc) by (intros; qc_nra).
  assert (P3 : a = Q2Qc 1 -> (z * a)%Qc = z) by (intros ->; ring).
  set (p := (z * a)%Qc) in *. clearbody p.
  split_ltb; eexists; (split; [reflexivity|]);
    (refine (conj _ (conj _ (conj _ _)));
     [ clear P1 P2 P3; qc_lra
     | intros H1 H2; specialize (P1 H1); clear P2 P3; qc_lra
     | intros H1 H2; specialize (P2 H1); clear P1 P3; qc_lra
     | intros H1 [H2 H3]; specialize (P3 H1); clear P1 P2 H1; qc_lra ]).
Qed.

(** X11.  A wheel event on a positive zoom, with a finite non-zero
    [zoomSpeedWheel] and finite limits.  The zoom becomes
    [sanitizeZoom(zoom * a)] for the factor [a] the handler computes from
    the speed and the delta; [a] lies between 3/4 and 5/4, is at least 1
    for [deltaY < 0], at most 1 for [deltaY > 0] and 1 for [deltaY = 0].
    So the zoom never moves against the wheel: scrolling up does not reduce
    a zoom that is at most [maxZoom], scrolling down does not enlarge a
    zoom that is at least [minZoom], and a zero delta leaves a zoom within
    the limits as it is.  The speed is non-zero so that, on doubles, it
    cannot meet a delta that overflowed as [0 * Infinity]. *)
Theorem mouseWheelEvent_direction (d : dom) (ev : WheelEvent)
  (t : domPanZoom) (lo hi z s : Qc) :
  minZoom (options t) = Fin lo ->
  maxZoom (options t) = Fin hi ->
  zoomSpeedWheel (options t) = Fin s ->
  zoom (pos t) = Fin z ->
  s <> Q2Qc 0 ->
  (0 < z)%Qc ->
  exists a z' : Qc,
    deltaAdjustedSpeed (Fin s) (wheelDelta ev) = Fin a /\
    zoom (pos (mouseWheelEvent d ev t)) = Fin z' /\
    Fin z' = fst (sanitizeZoom d (zoom_num (Fin z * Fin a)) t) /\
    (frac 3 4 <= a <= frac 5 4)%Qc /\
    ((deltaY ev < 0)%Qc -> (1 <= a)%Qc) /\
    ((0 < deltaY ev)%Qc -> (a <= 1)%Qc) /\
    (deltaY ev = Q2Qc 0 -> a = Q2Qc 1) /\
    ((deltaY ev < 0)%Qc -> (z <= hi)%Qc -> (z <= z')%Qc) /\
    ((0 < deltaY ev)%Qc -> (lo <= z)%Qc -> (z' <= z)%Qc) /\
    (deltaY ev = Q2Qc 0 -> (lo <= z <= hi)%Qc -> z' = z).
Proof.
  intros Hlo Hhi Hs Hz _ Hz0.
  destruct (wheelDelta_sign ev) as (dl & Hd & Dneg & Dpos & Dzero).
  destruct (deltaAdjustedSpeed_bounds s dl)
    as (a & Ha & Hrange & Aup & Adown & A0).
  destruct (scale_sanitize z a lo hi Hz0)
    as (z' & Hz' & _ & Zup & Zdown & Zsame).
  exists a, z'.
  rewrite mouseWheelEvent_zoom, !sanitizeZoom_num, Hlo, Hhi, Hs, Hz, Hd, Ha.
  cbn [fst].
  refine (conj eq_refl (conj Hz' (conj (eq_sym Hz') (conj Hrange
            (conj _ (conj _ (conj _ (conj _ (conj _ _))))))))).
  - intros H. apply Aup, Dneg, H.
  - intros H. apply Adown, Dpos, H.
  - intros H. apply A0, Dzero, H.
  - intros H. apply Zup, Aup, Dneg, H.
  - intros H. apply Zdown, Adown, Dpos, H.
  - intros H. apply Zsame, A0, Dzero, H.
Qed.

Lemma mouseWheelEvent_direction_witness :
  exists z' : Qc,
    zoom (pos (mouseWheelEvent scenarioA (wheelAt (-120))
                 (init scenarioA defaultOptions))) = Fin z' /\
    (frac 1 2 <= z')%Qc.
Proof.
  assert (Hlo : minZoom (options (init scenarioA defaultOptions))
                = Fin (frac 1 2)) by num_refl.
  assert (Hz : zoom (pos (init scenarioA defaultOptions)) = Fin (frac 1 2))
    by num_refl.
  assert (Hs : frac 1 1 <> Q2Qc 0)
    by (intro H; apply Qc_eq_Qeq in H; discriminate H).
  assert (Hp : (0 < frac 1 2)%Qc) by reflexivity.
  destruct (mouseWheelEvent_direction scenarioA (wheelAt (-120))
              (init scenarioA defaultOptions)
              (frac 1 2) (frac 10 1) (frac 1 2) (frac 1 1)
              Hlo eq_refl eq_refl Hz Hs Hp)
    as (a & z' & _ & E & _ & _ & _ & _ & _ & Up & _).
  exists z'. split; [exact E|]. apply Up; [reflexivity|].
  vm_compute. discriminate.
Defined.

(** ** [zoomIn] and [zoomOut] *)

Lemma zoomStep_factor (s : Qc) :
  (0 < s)%Qc ->
  exists a : Qc, (lit 100 + Fin s) / lit 100 = Fin a /\ (1 <= a)%Qc.
Proof.
  intros Hs. num_eval. eexists. split; [reflexivity|]. qc_lra.
Qed.

(** X12.  [zoomIn] and [zoomOut] do not mirror each other.  With a positive
    step [s], [zoomIn] returns the instance with the options as they were
    and the zoom [sanitizeZoom(zoom * ((100 + s) / 100))], which is never
    above [maxZoom] and, for a positive zoom that was at most [maxZoom],
    not smaller than before.  [zoomOut] returns nothing on any input: the
    method assigns to the constant [zoomStep] and ends with a
    [TypeError]. *)
Theorem zoomIn_grows_zoomOut_throws (d : dom) (t : domPanZoom)
  (step : stepArg) (instant : bool) (lo hi z s : Qc) :
  minZoom (options t) = Fin lo ->
  maxZoom (options t) = Fin hi ->
  zoom (pos t) = Fin z ->
  stepOf step (zoomStep (options t)) = Fin s ->
  (0 < z)%Qc ->
  (0 < s)%Qc ->
  (exists (t' : domPanZoom) (z' : Qc),
      zoomIn d step instant t = Return t' /\
      options t' = options t /\
      zoom (pos t') = Fin z' /\
      Fin z' = fst (sanitizeZoom d
                      (zoom_num (Fin z * ((lit 100 + Fin s) / lit 100))) t) /\
      (z' <= hi)%Qc /\
      ((z <= hi)%Qc -> (z <= z')%Qc)) /\
  (forall (d' : dom) (t0 : domPanZoom) (step0 : stepArg) (instant0 : bool),
      exists message : string,
        zoomOut d' step0 instant0 t0 = Throw (TypeError message)).
Proof.
  intros Hlo Hhi Hz Hs Hz0 Hs0. split.
  - destruct (zoomStep_factor s Hs0) as (a & Ha & Ha1).
    destruct (scale_sanitize z a lo hi Hz0) as (z' & Hz' & Hle & Hup & _).
    eexists. exists z'.
    split; [reflexivity|].
    rewrite zoomTo_options, zoomTo_zoom, !sanitizeZoom_num, Hlo, Hhi, Hz, Hs, Ha.
    cbn [fst].
    refine (conj eq_refl (conj Hz' (conj (eq_sym Hz') (conj Hle _)))).
    intros H. apply Hup; assumption.
  - intros d' t0 step0 instant0. eexists. reflexivity.
Qed.

Lemma zoomIn_grows_zoomOut_throws_witness :
  exists (t' : domPanZoom) (z' : Qc),
    zoomIn scenarioA step_omitted true (init scenarioA defaultOptions)
    = Return t' /\
    zoom (pos t') = Fin z' /\ (frac 1 2 <= z')%Qc.
Proof.
  assert (Hlo : minZoom (options (init scenarioA defaultOptions))
                = Fin (frac 1 2)) by num_refl.
  assert (Hz : zoom (pos (init scenarioA defaultOptions)) = Fin (frac 1 2))
    by num_refl.
  assert (Hp : (0 < frac 1 2)%Qc) by reflexivity.
  assert (Hq : (0 < frac 50 1)%Qc) by reflexivity.
  destruct (proj1 (zoomIn_grows_zoomOut_throws scenarioA
                     (init scenarioA defaultOptions) step_omitted true
                     (frac 1 2) (frac 10 1) (frac 1 2) (frac 50 1)
                     Hlo eq_refl Hz eq_refl Hp Hq))
    as (t' & z' & E & _ & Ez & _ & _ & Up).
  exists t', z'. refine (conj E (conj Ez _)). apply Up.
  vm_compute. discriminate.
Defined.

(** ** The constructor *)





(** ** The symbolic zoom values *)

Lemma limits_monotone (a b lo hi : Qc) :
  (a <= b)%Qc ->
  exists a' b' : Qc,
    (let z1 := if Fin a <? Fin lo then Fin lo else Fin a in
     if z1 >? Fin hi then Fin hi else z1) = Fin a' /\
    (let z1 := if Fin b <? Fin lo then Fin lo else Fin b in
     if z1 >? Fin hi then Fin hi else z1) = Fin b' /\
    (a' <= b')%Qc /\
    ((lo <= a)%Qc -> (a' <= a)%Qc) /\
    ((b <= hi)%Qc -> (b <= b')%Qc).
Proof.
  intros H. cbv zeta. num_eval.
  split_ltb; do 2 eexists; (split; [reflexivity|]); (split; [reflexivity|]);
    (refine (conj _ (conj _ _)); intros; qc_lra).
Qed.

Lemma requestedZoom_ratios d :
  (0 < clientWidth (container d))%Z ->
  (0 < clientHeight (container d))%Z ->
  exists rx ry r R : Qc,
    width (wrapper d) / width (container d) = Fin rx /\
    height (wrapper d) / height (container d) = Fin ry /\
    requestedZoom d zoom_contain = Fin r /\
    requestedZoom d zoom_cover = Fin R /\
    (r <= rx)%Qc /\ (r <= ry)%Qc /\ (rx <= R)%Qc /\ (ry <= R)%Qc /\
    (r <= R)%Qc /\ (r = rx \/ r = ry) /\ (R = rx \/ R = ry).
Proof.
  intros Hw Hh. unfold requestedZoom. cbv zeta.
  destruct (ratio_finite (clientWidth (wrapper d)) _ Hw) as [rx Ex].
  destruct (ratio_finite (clientHeight (wrapper d)) _ Hh) as [ry Ey].
  unfold width, height. rewrite Ex, Ey. exists rx, ry. num_eval.
  split_ltb; do 2 eexists; do 4 (split; [reflexivity|]);
    repeat split; try qc_lra; auto.
Qed.

(** X14.  [sanitizeZoom] on the two symbolic values, for a content surface of
    positive size and finite limits, measured against the two ratios
    viewport / content the code divides out, [rx] for the widths and [ry]
    for the heights.  ['contain'] never gives more than ['cover'].  Unless
    [minZoom] is above one of the ratios, the ['contain'] zoom is at most
    both ratios, so that the content fits on both axes; unless [maxZoom] is
    below one of them, the ['cover'] zoom is at least both, so that the
    content covers the viewport on both axes. *)
Theorem contain_fits_cover_fills (d : dom) (t : domPanZoom) (lo hi : Qc) :
  (0 < clientWidth (container d))%Z ->
  (0 < clientHeight (container d))%Z ->
  minZoom (options t) = Fin lo ->
  maxZoom (options t) = Fin hi ->
  exists rx ry zc zv : Qc,
    width (wrapper d) / width (container d) = Fin rx /\
    height (wrapper d) / height (container d) = Fin ry /\
    fst (sanitizeZoom d zoom_contain t) = Fin zc /\
    fst (sanitizeZoom d zoom_cover t) = Fin zv /\
    (zc <= zv)%Qc /\
    ((lo <= rx)%Qc -> (lo <= ry)%Qc -> (zc <= rx)%Qc /\ (zc <= ry)%Qc) /\
    ((rx <= hi)%Qc -> (ry <= hi)%Qc -> (rx <= zv)%Qc /\ (ry <= zv)%Qc).
Proof.
  intros Hw Hh Hlo Hhi.
  destruct (requestedZoom_ratios d Hw Hh)
    as (rx & ry & r & R & Ex & Ey & Hr & HR & rx1 & ry1 & Rx & Ry & HrR
        & Hr' & HR').
  destruct (limits_monotone r R lo hi HrR) as (zc & zv & Ec & Ev & Hcv & Hc & Hv).
  exists rx, ry, zc, zv.
  rewrite !sanitizeZoom_fst, Hlo, Hhi, Hr, HR.
  refine (conj Ex (conj Ey (conj Ec (conj Ev (conj Hcv (conj _ _)))))).
  - intros Lx Ly.
    assert (L : (lo <= r)%Qc) by (destruct Hr' as [->| ->]; assumption).
    specialize (Hc L).
    split; [exact (Qcle_trans _ _ _ Hc rx1) | exact (Qcle_trans _ _ _ Hc ry1)].
  - intros Lx Ly.
    assert (L : (R <= hi)%Qc) by (destruct HR' as [->| ->]; assumption).
    specialize (Hv L).
    split; [exact (Qcle_trans _ _ _ Rx Hv) | exact (Qcle_trans _ _ _ Ry Hv)].
Qed.

Lemma contain_fits_cover_fills_witness :
  exists rx ry zc zv : Qc,
    width (wrapper tinyContent) / width (container tinyContent) = Fin rx /\
    height (wrapper tinyContent) / height (container tinyContent) = Fin ry /\
    fst (sanitizeZoom tinyContent zoom_contain
           (instanceAt defaultOptions (lit 1) (lit 0) (lit 0))) = Fin zc /\
    fst (sanitizeZoom tinyContent zoom_cover
           (instanceAt defaultOptions (lit 1) (lit 0) (lit 0))) = Fin zv /\
    (zc <= rx)%Qc /\ (zc <= ry)%Qc.
Proof.
  destruct (contain_fits_cover_fills tinyContent
              (instanceAt defaultOptions (lit 1) (lit 0) (lit 0))
              (frac 1 10) (frac 10 1) eq_refl eq_refl eq_refl eq_refl)
    as (rx & ry & zc & zv & Ex & Ey & Ec & Ev & _ & Fit & _).
  exists rx, ry, zc, zv.
  refine (conj Ex (conj Ey (conj Ec (conj Ev _)))).
  assert (Hx : rx = frac 20 1).
  { assert (E : Fin rx = Fin (frac 20 1)) by (rewrite <- Ex; num_refl).
    injection E as ->. reflexivity. }
  assert (Hy : ry = frac 20 1).
  { assert (E : Fin ry = Fin (frac 20 1)) by (rewrite <- Ey; num_refl).
    injection E as ->. reflexivity. }
  apply Fit; rewrite ?Hx, ?Hy; vm_compute; discriminate.
Defined.

(** ** Initialization *)



(** ** Surfaces without extent *)

Lemma nadd_NaN_r a : a + NaN = NaN.
Proof. destruct a; reflexivity. Qed.

Lemma nmul_NaN_r a : a * NaN = NaN.
Proof. destruct a; reflexivity. Qed.

Lemma nlt_NaN_r a : (a <? NaN) = false.
Proof. destruct a; reflexivity. Qed.

Lemma Math_min_NaN_r a : Math_min a NaN = NaN.
Proof. destruct a; reflexivity. Qed.

Lemma Math_max_NaN_r a : Math_max a NaN = NaN.
Proof. destruct a; reflexivity. Qed.

Lemma fitAxis_NaN size view : fitAxis size view NaN NaN = NaN.
Proof.
  unfold fitAxis. cbv zeta. rewrite nmul_NaN_r. reflexivity.
Qed.

Lemma requestedZoom_hidden d z :
  z <> zoom_num (requestedZoom d z) ->
  (clientWidth (wrapper d) = 0%Z /\ clientWidth (container d) = 0%Z) \/
  (clientHeight (wrapper d) = 0%Z /\ clientHeight (container d) = 0%Z) ->
  requestedZoom d z = NaN.
Proof.
  intros Hsym H. unfold requestedZoom, width, height. cbv zeta.
  destruct z as [| |n]; [| |exfalso; apply Hsym; reflexivity];
    destruct H as [[-> ->]|[-> ->]];
    change (of_Z 0 / of_Z 0) with NaN;
    rewrite ?Math_min_NaN_r, ?Math_max_NaN_r; reflexivity.
Qed.

(** X15.  When the viewport and the content surface both have width 0, or both
    height 0 (as hidden elements have), a symbolic zoom request is [0/0]:
    [zoomTo('contain')] and [zoomTo('cover')] store NaN as zoom and as both
    offsets, whatever the instance held before, and [init] with a symbolic
    [initialZoom] starts with a NaN zoom.  Nothing short-circuits. *)
Theorem symbolic_zoom_without_extent (d : dom) (z : zoomValue) :
  z = zoom_contain \/ z = zoom_cover ->
  (clientWidth (wrapper d) = 0%Z /\ clientWidth (container d) = 0%Z) \/
  (clientHeight (wrapper d) = 0%Z /\ clientHeight (container d) = 0%Z) ->
  (forall (t : domPanZoom) (instant : bool),
      pos (zoomTo d z instant t) = {| zoom := NaN; x := NaN; y := NaN |}) /\
  (forall o : Options,
      initialZoom o = z -> zoom (pos (init d o)) = NaN).
Proof.
  intros Hz Hd.
  assert (Hsym : z <> zoom_num (requestedZoom d z))
    by (destruct Hz as [-> | ->]; discriminate).
  pose proof (requestedZoom_hidden d z Hsym Hd) as Hreq.
  assert (S : forall t, fst (sanitizeZoom d z t) = NaN).
  { intros t. rewrite sanitizeZoom_fst, Hreq. cbv zeta.
    cbn [nlt]. unfold ngt. rewrite nlt_NaN_r. reflexivity. }
  split.
  - intros t instant. unfold zoomTo.
    specialize (S t). destruct (sanitizeZoom d z t) as [z' t']. cbn [fst] in S.
    subst z'. rewrite setPosition_pos.
    unfold adjustPositionByZoom. cbv zeta.
    cbn [set_zoom set_xy with_pos pos zoom x y options].
    change ((NaN - zoom (pos t')) / zoom (pos t')) with NaN.
    rewrite !nmul_NaN_r, !nadd_NaN_r.
    destruct (bounds_enabled (bounds (options t'))); [|reflexivity].
    rewrite !fitAxis_NaN. reflexivity.
  - intros o Ho. rewrite init_zoom, Ho. apply S.
Qed.

Lemma symbolic_zoom_without_extent_witness :
  pos (zoomTo (layout 0 0 0 0) zoom_contain true (init scenarioA defaultOptions))
  = {| zoom := NaN; x := NaN; y := NaN |}.
Proof.
  apply (proj1 (symbolic_zoom_without_extent (layout 0 0 0 0) zoom_contain
                  (or_introl eq_refl)
                  (or_introl (conj eq_refl eq_refl)))).
Defined.

Ltac qc_field := qc_to_q; field; repeat split; assumption.

(** ** Dragging and pinching *)

Lemma setPosition_free d instant t :
  bounds (options t) = bounds_false ->
  pos (setPosition d instant t) = pos t.
Proof.
  intros Hb. rewrite setPosition_pos, Hb. reflexivity.
Qed.



Lemma sanitize_within (z lo hi : Qc) :
  (lo <= z <= hi)%Qc ->
  (let z1 := if Fin z <? Fin lo then Fin lo else Fin z in
   if z1 >? Fin hi then Fin hi else z1) = Fin z.
Proof.
  intros [H1 H2]. cbv zeta. num_eval.
  split_ltb; try reflexivity; exfalso; qc_lra.
Qed.




(** ** Zooming around a point *)

(** [getEventOffsetToCenter] is the position minus something that depends
    on the layout and the event only. *)
Lemma getEventOffsetToCenter_none d t (px py : Qc) :
  x (pos t) = Fin px -> y (pos t) = Fin py ->
  exists ox oy : Qc, getEventOffsetToCenter d None t = (Fin ox, Fin oy).
Proof.
  intros Hx Hy. unfold getEventOffsetToCenter. cbv zeta. rewrite Hx, Hy.
  unfold width, height, lit, dec, of_Z.
  cbv beta iota delta [nadd nsub nmul nneg fst snd]. eauto.
Qed.

Lemma adjust_axis_same (v a z m : Qc) :
  Qceqb z 0 = false ->
  Fin v
  + (let a1 := if Fin a >? Fin m then Math_min (Fin a) (Fin m) else Fin a in
     if a1 <? Fin m * lit (-1) then Math_max a1 (Fin m * lit (-1)) else a1)
    * ((Fin z - Fin z) / Fin z)
  = Fin v.
Proof.
  intros Hz. cbv zeta. num_eval. rewrite Hz.
  split_ltb; f_equal; qc_field.
Qed.

Lemma adjustPositionByZoom_same d t (z px py ax ay : Qc) :
  pos t = {| zoom := Fin z; x := Fin px; y := Fin py |} ->
  z <> Q2Qc 0 ->
  pos (adjustPositionByZoom d (Fin z) (Fin ax) (Fin ay) t) = pos t.
Proof.
  intros Hp Hz. apply Qceqb_neq in Hz.
  unfold adjustPositionByZoom. cbv zeta.
  cbn [set_xy with_pos pos]. rewrite Hp. cbn [zoom x y].
  unfold width, height, of_Z.
  change (Fin (ofZ (clientWidth (container d))) * dec 1 2 * Fin z)
    with (Fin (ofZ (clientWidth (container d)) * frac 1 2 * z)%Qc).
  change (Fin (ofZ (clientHeight (container d))) * dec 1 2 * Fin z)
    with (Fin (ofZ (clientHeight (container d)) * frac 1 2 * z)%Qc).
  pose proof (adjust_axis_same px ax z
                (ofZ (clientWidth (container d)) * frac 1 2 * z)%Qc Hz) as Ax.
  pose proof (adjust_axis_same py ay z
                (ofZ (clientHeight (container d)) * frac 1 2 * z)%Qc Hz) as Ay.
  cbv zeta in Ax, Ay. rewrite Ax, Ay. reflexivity.
Qed.

(** X21.  Asking for the zoom the instance already has changes nothing: when the
    zoom is non-zero and within the limits and the position is within the
    bounds (a commit would leave it alone), [zoomTo(getZoom())] returns the
    same position. *)
Theorem zoomTo_current_zoom (d : dom) (t : domPanZoom) (instant : bool)
  (lo hi z px py : Qc) :
  minZoom (options t) = Fin lo ->
  maxZoom (options t) = Fin hi ->
  pos t = {| zoom := Fin z; x := Fin px; y := Fin py |} ->
  (lo <= z <= hi)%Qc ->
  z <> Q2Qc 0 ->
  pos (setPosition d instant t) = pos t ->
  pos (zoomTo d (zoom_num (getZoom t)) instant t) = pos t.
Proof.
  intros Hlo Hhi Hp Hin Hz Hfix.
  replace (getZoom t) with (Fin z)
    by (unfold getZoom; rewrite Hp; reflexivity).
  unfold zoomTo. rewrite sanitizeZoom_num, Hlo, Hhi.
  pose proof (sanitize_within z lo hi Hin) as Es. cbv zeta in Es.
  cbv zeta. rewrite Es.
  destruct (getEventOffsetToCenter_none d t px py) as (ox & oy & ->);
    try (rewrite Hp; reflexivity).
  cbn [fst snd].
  pose proof (adjustPositionByZoom_same d t z px py ox oy Hp Hz) as Ea.
  set (t1 := adjustPositionByZoom d (Fin z) (Fin ox) (Fin oy) t) in *.
  assert (Eo : options (set_zoom (Fin z) t1) = options t) by reflexivity.
  assert (Ep : pos (set_zoom (Fin z) t1) = pos t).
  { unfold set_zoom. cbn [with_pos pos]. rewrite Ea, Hp. reflexivity. }
  rewrite setPosition_pos in Hfix. rewrite setPosition_pos, Eo, Ep. exact Hfix.
Qed.

Lemma zoomTo_current_zoom_witness :
  let t := init scenarioA defaultOptions in
  pos (zoomTo scenarioA (zoom_num (getZoom t)) true t) = pos t.
Proof.
  cbv zeta.
  apply (zoomTo_current_zoom scenarioA (init scenarioA defaultOptions) true
           (frac 1 2) (frac 10 1) (frac 1 2) (frac (-400) 1) (frac (-300) 1)).
  - num_refl.
  - num_refl.
  - vm_compute. f_equal; apply f_equal, Qc_is_canon; reflexivity.
  - vm_compute. split; discriminate.
  - intro H. apply Qc_eq_Qeq in H. discriminate H.
  - vm_compute. reflexivity.
Defined.

(** ** The pinch position, and instances of the theorems above *)

(** X22.  A pinch update does not zoom around the pinch center.  The handler
    calls [adjustPositionByZoom] with the center of the two pointers and
    then assigns [x] and [y] anew: with the bounds off the offsets are the
    cached offsets plus the movement of the pinch center since the pinch
    began, whatever the zoom request was. *)
Theorem pinch_position (d : dom) (ev e0 e1 : PointerEvent) (t : domPanZoom) :
  bounds (options t) = bounds_false ->
  replacePointer ev (evCache (pinch t)) = [e0; e1] ->
  x (pos (pointerMoveEvent d ev t))
  = xCache (pinch t)
    + (centerClientX (getTouchEventsCenter e0 e1)
       - centerClientX (touchEventsCenterCache (pinch t))) /\
  y (pos (pointerMoveEvent d ev t))
  = yCache (pinch t)
    + (centerClientY (getTouchEventsCenter e0 e1)
       - centerClientY (touchEventsCenterCache (pinch t))).
Proof.
  intros Hb Hc. unfold pointerMoveEvent.
  cbn [pinch with_pinch set_evCache evCache]. rewrite Hc.
  rewrite sanitizeZoom_num. cbv zeta.
  rewrite setPosition_free by exact Hb.
  split; reflexivity.
Qed.

Lemma pinch_position_witness :
  let t := pointerRun scenarioA (instanceAt freeOptions (lit 1) (lit 0) (lit 0))
             [pointerdown (finger 1 100 100); pointerdown (finger 2 200 100)] in
  x (pos (pointerMoveEvent scenarioA (finger 2 240 100) t))
  = xCache (pinch t)
    + (centerClientX (getTouchEventsCenter (finger 1 100 100) (finger 2 240 100))
       - centerClientX (touchEventsCenterCache (pinch t))).
Proof.
  cbv zeta.
  apply (proj1 (pinch_position scenarioA (finger 2 240 100)
                  (finger 1 100 100) (finger 2 240 100)
                  (pointerRun scenarioA
                     (instanceAt freeOptions (lit 1) (lit 0) (lit 0))
                     [pointerdown (finger 1 100 100);
                      pointerdown (finger 2 200 100)])
                  eq_refl eq_refl)).
Defined.

Lemma pointerRun_blockPanAgrees_witness :
  blockPanAgrees
    (pointerRun scenarioA (init scenarioA defaultOptions)
       [pointerdown (finger 1 100 100); pointerdown (finger 2 200 100);
        pointerdown (finger 3 300 100); pointerup (finger 2 200 100);
        pointerup (finger 1 100 100)]).
Proof.
  apply (pointerRun_blockPanAgrees scenarioA _ (init scenarioA defaultOptions)).
  reflexivity.
Defined.



(** * The remaining claims of the specification *)

(** ** Degenerate surfaces (C3) *)

Lemma zoomTo_NaN_request d z instant t :
  requestedZoom d z = NaN ->
  pos (zoomTo d z instant t) = {| zoom := NaN; x := NaN; y := NaN |}.
Proof.
  intros Hreq.
  assert (S : fst (sanitizeZoom d z t) = NaN).
  { rewrite sanitizeZoom_fst, Hreq. cbv zeta.
    cbn [nlt]. unfold ngt. rewrite nlt_NaN_r. reflexivity. }
  unfold zoomTo.
  destruct (sanitizeZoom d z t) as [z' t']. cbn [fst] in S.
  subst z'. rewrite setPosition_pos.
  unfold adjustPositionByZoom. cbv zeta.
  cbn [set_zoom set_xy with_pos pos zoom x y options].
  change ((NaN - zoom (pos t')) / zoom (pos t')) with NaN.
  rewrite !nmul_NaN_r, !nadd_NaN_r.
  destruct (bounds_enabled (bounds (options t'))); [|reflexivity].
  rewrite !fitAxis_NaN. reflexivity.
Qed.

Lemma percent_not_finite (a z : Qc) :
  isFinite (Fin a / (of_Z 0 * Fin z) * lit 100) = false.
Proof.
  unfold of_Z, lit, dec. cbn [nmul].
  assert (E0 : ofZ 0 = Q2Qc 0) by (apply Qc_is_canon; reflexivity).
  rewrite E0. replace (Q2Qc 0 * z)%Qc with (Q2Qc 0) by ring.
  cbn [ndiv]. change (Qceqb (Q2Qc 0) 0) with true. cbv iota.
  unfold inf_signed.
  destruct (Qceqb a 0); [reflexivity|].
  destruct (Qcltb 0 a); reflexivity.
Qed.

(** C3, as the program has it.  No operation looks at the size of a surface
    before it divides by it.  On a finite position, the percentage
    [getPanX()] returns for a content surface of width 0 is not a finite
    number, nor is the one [getPanY()] returns for a content surface of
    height 0.  When the viewport and the content both have width 0, or both
    height 0, [zoomTo] with a symbolic value stores NaN as zoom, [x] and
    [y], whatever the instance held, and [init] with a symbolic
    [initialZoom] stores a NaN zoom. *)
Theorem no_guard_on_empty_surfaces (d : dom) :
  (clientWidth (container d) = 0%Z ->
   forall (t : domPanZoom) (z px py : Qc),
     pos t = {| zoom := Fin z; x := Fin px; y := Fin py |} ->
     isFinite (getPanX d false t) = false) /\
  (clientHeight (container d) = 0%Z ->
   forall (t : domPanZoom) (z px py : Qc),
     pos t = {| zoom := Fin z; x := Fin px; y := Fin py |} ->
     isFinite (getPanY d false t) = false) /\
  ((clientWidth (wrapper d) = 0%Z /\ clientWidth (container d) = 0%Z) \/
   (clientHeight (wrapper d) = 0%Z /\ clientHeight (container d) = 0%Z) ->
   forall z : zoomValue,
     z = zoom_contain \/ z = zoom_cover ->
     (forall (t : domPanZoom) (instant : bool),
        pos (zoomTo d z instant t) = {| zoom := NaN; x := NaN; y := NaN |}) /\
     (forall o : Options,
        initialZoom o = z -> zoom (pos (init d o)) = NaN)).
Proof.
  refine (conj _ (conj _ _)).
  - intros Hw t z px py Hpos. unfold getPanX. cbv zeta.
    rewrite Hpos. cbn [zoom x]. unfold width. rewrite Hw.
    set (panX := of_Z (clientWidth (wrapper d)) * dec 1 2 + Fin px * lit (-1)
                 + (Fin z - lit 1) * (of_Z 0 * dec 1 2)).
    assert (E : exists a, panX = Fin a)
      by (subst panX; num_eval; eexists; reflexivity).
    destruct E as [a ->]. apply percent_not_finite.
  - intros Hh t z px py Hpos. unfold getPanY. cbv zeta.
    rewrite Hpos. cbn [zoom y]. unfold height. rewrite Hh.
    set (panY := of_Z (clientHeight (wrapper d)) * dec 1 2 + Fin py * lit (-1)
                 + (Fin z - lit 1) * (of_Z 0 * dec 1 2)).
    assert (E : exists a, panY = Fin a)
      by (subst panY; num_eval; eexists; reflexivity).
    destruct E as [a ->]. apply percent_not_finite.
  - intros Hd z Hz.
    assert (Hsym : z <> zoom_num (requestedZoom d z))
      by (destruct Hz as [-> | ->]; discriminate).
    pose proof (requestedZoom_hidden d z Hsym Hd) as Hreq.
    split.
    + intros t instant. apply zoomTo_NaN_request. exact Hreq.
    + intros o Ho. rewrite init_zoom, Ho, sanitizeZoom_fst, Hreq. cbv zeta.
      cbn [nlt]. unfold ngt. rewrite nlt_NaN_r. reflexivity.
Qed.

Lemma no_guard_on_empty_surfaces_witness :
  isFinite (getPanX (layout 800 600 0 0) false (init scenarioA defaultOptions))
  = false.
Proof.
  refine (proj1 (no_guard_on_empty_surfaces (layout 800 600 0 0)) eq_refl
            (init scenarioA defaultOptions)
            (frac 1 2) (frac (-400) 1) (frac (-300) 1) _).
  vm_compute. f_equal; apply f_equal, Qc_is_canon; reflexivity.
Defined.

(** C3, the claim as stated fails: an instance initialized on a viewport of
    800 x 600 with a content of 1600 x 1200 holds the zoom 1/2; when the
    surfaces are hidden (every size 0), [zoomTo('contain')] does not leave
    the state as it is but stores NaN three times. *)
Lemma zoomTo_on_hidden_surfaces_stores_NaN :
  let t := init scenarioA defaultOptions in
  let t' := zoomTo (layout 0 0 0 0) zoom_contain true t in
  zoom (pos t) = dec 1 2 /\
  pos t' = {| zoom := NaN; x := NaN; y := NaN |} /\
  pos t' <> pos t.
Proof.
  cbv zeta.
  assert (E : pos (zoomTo (layout 0 0 0 0) zoom_contain true
                    (init scenarioA defaultOptions))
              = {| zoom := NaN; x := NaN; y := NaN |})
    by (vm_compute; reflexivity).
  refine (conj _ (conj E _)).
  - num_refl.
  - rewrite E. vm_compute. discriminate.
Qed.

(** ** [zoomOut] (C4) *)

(** C4.  [zoomOut] does not complete: on the instance initialized with the
    default options on a viewport of 800 x 600 and a content of
    1600 x 1200, [zoomOut(50, true)] and [zoomOut()] end with the
    [TypeError] of the assignment to the constant [zoomStep], where
    [zoomIn] with the same arguments returns the instance with the zoom
    3/4. *)
Theorem zoomOut_throws_TypeError :
  let t := init scenarioA defaultOptions in
  zoomOut scenarioA (step_num (lit 50)) true t
    = Throw (TypeError "Assignment to constant variable.") /\
  zoomOut scenarioA step_omitted false t
    = Throw (TypeError "Assignment to constant variable.") /\
  exists t' : domPanZoom,
    zoomIn scenarioA (step_num (lit 50)) true t = Return t' /\
    zoom (pos t') = dec 3 4.
Proof.
  cbv zeta. refine (conj eq_refl (conj eq_refl _)).
  eexists. split; [reflexivity|]. num_refl.
Qed.

(** ** The constructor (C5) *)

(** C5.  The constructor does not survive an option that does not resolve:
    with a wrapper selector that matches nothing, [getWrapper] writes its
    line to [console.error] and returns null, and [init] then reads
    [wrapper.style] of null; with a wrapper element and no
    [panZoomElement], the null of [getContainer] is dereferenced in the
    bounds block.  No instance is returned. *)
Theorem construct_throws_after_logging :
  let content := surface 1600 1200 in
  let viewport := surface 800 600 in
  construct (fun _ => query_null) (lit 0) (lit 0)
    {| wrapperElement := ref_selector "#missing";
       panZoomElement := ref_element content;
       settings := defaultOptions |}
  = (Throw (TypeError "Cannot read properties of null (reading 'style')"),
     ["The option wrapperElement needs to be a valid selector string or an instance of Element."%string]) /\
  construct (fun _ => query_null) (lit 0) (lit 0)
    {| wrapperElement := ref_element viewport;
       panZoomElement := ref_null;
       settings := defaultOptions |}
  = (Throw (TypeError "Cannot read properties of null (reading 'clientWidth')"),
     ["The option panZoomElement is required."%string]).
Proof.
  cbv zeta. split; reflexivity.
Qed.

(** ** The pinch distance (C9) *)

(** C9.  The distance between two pointers is the absolute value of their
    vertical separation: the x term handed to [Math.hypot] is
    [ev1.pageX - ev1.pageX], which is 0 for every event. *)
Theorem pinch_distance_is_vertical_separation (e1 e2 : PointerEvent) :
  Fin (pageX e1) - Fin (pageX e1) = lit 0 /\
  getTouchEventsDistance e1 e2 = Math_abs (Fin (pageY e1) - Fin (pageY e2)).
Proof.
  split.
  - unfold lit, dec. cbn [nsub nadd nneg]. apply f_equal.
    apply Qc_is_canon. cbn [this]. qc_to_q. lra.
  - rewrite getTouchEventsDistance_eq. reflexivity.
Qed.

(** ** The pointer cache (C8) *)

Lemma pointerDownEvent_baseline ev t :
  zoomCache (pinch (pointerDownEvent ev t)) = zoom (pos t) /\
  xCache (pinch (pointerDownEvent ev t)) = x (pos t) /\
  yCache (pinch (pointerDownEvent ev t)) = y (pos t).
Proof.
  unfold pointerDownEvent. cbv zeta.
  destruct (evCache (pinch t) ++ [ev]) as [|e0 [|e1 [|e2 r]]];
    repeat split; reflexivity.
Qed.

Lemma pointerDownEvent_pinch_start ev t :
  (forall e0, evCache (pinch t) = [e0] ->
     pinchDiffCache (pinch (pointerDownEvent ev t))
       = getTouchEventsDistance e0 ev /\
     touchEventsCenterCache (pinch (pointerDownEvent ev t))
       = getTouchEventsCenter e0 ev) /\
  (List.length (evCache (pinch t)) <> 1%nat ->
     pinchDiffCache (pinch (pointerDownEvent ev t)) = pinchDiffCache (pinch t) /\
     touchEventsCenterCache (pinch (pointerDownEvent ev t))
       = touchEventsCenterCache (pinch t)).
Proof.
  unfold pointerDownEvent. cbv zeta. split.
  - intros e0 ->. split; reflexivity.
  - intros H. destruct (evCache (pinch t)) as [|e0 [|e1 [|e2 r]]];
      try (split; reflexivity). exfalso. apply H. reflexivity.
Qed.

(** C8, as the program has it.  The cache has no limit: [pointerDownEvent]
    appends the record whatever the size of the cache, and stores the
    current zoom, [x] and [y] each time.  When the cache held exactly one
    record, so that it reaches two, the pinch distance and the pinch
    center of the two records are stored and [blockPan] is set; on any
    other size these three are left alone.  A move keeps the number of
    records.  A removal ([pointerup], [pointercancel], [pointerout],
    [pointerleave]) takes at most one record away, clears [blockPan] when
    fewer than two records remain and leaves it alone otherwise. *)
Theorem pointer_cache_has_no_limit (d : dom) (ev : PointerEvent)
  (t : domPanZoom) :
  let down := pointerDownEvent ev t in
  let move := pointerMoveEvent d ev t in
  let up := pointerUpEvent ev t in
  evCache (pinch down) = evCache (pinch t) ++ [ev] /\
  (zoomCache (pinch down) = zoom (pos t) /\
   xCache (pinch down) = x (pos t) /\
   yCache (pinch down) = y (pos t)) /\
  (forall e0 : PointerEvent,
     evCache (pinch t) = [e0] ->
     blockPan (pinch down) = true /\
     pinchDiffCache (pinch down) = getTouchEventsDistance e0 ev /\
     touchEventsCenterCache (pinch down) = getTouchEventsCenter e0 ev) /\
  (List.length (evCache (pinch t)) <> 1%nat ->
     blockPan (pinch down) = blockPan (pinch t) /\
     pinchDiffCache (pinch down) = pinchDiffCache (pinch t) /\
     touchEventsCenterCache (pinch down) = touchEventsCenterCache (pinch t)) /\
  List.length (evCache (pinch move)) = List.length (evCache (pinch t)) /\
  (List.length (evCache (pinch t)) - 1
     <= List.length (evCache (pinch up))
     <= List.length (evCache (pinch t)))%nat /\
  ((List.length (evCache (pinch up)) < 2)%nat ->
     blockPan (pinch up) = false) /\
  ((2 <= List.length (evCache (pinch up)))%nat ->
     blockPan (pinch up) = blockPan (pinch t)).
Proof.
  cbv zeta.
  destruct (pointerDownEvent_pinch_start ev t) as [Hstart Hother].
  refine (conj (pointerDownEvent_evCache ev t)
            (conj (pointerDownEvent_baseline ev t)
               (conj _ (conj _ (conj _ (conj _ (conj _ _))))))).
  - intros e0 E. destruct (Hstart e0 E) as [H1 H2].
    rewrite pointerDownEvent_blockPan, E. cbn [List.length Nat.eqb].
    exact (conj eq_refl (conj H1 H2)).
  - intros H. destruct (Hother H) as [H1 H2].
    rewrite pointerDownEvent_blockPan.
    destruct (Nat.eqb_spec (List.length (evCache (pinch t))) 1) as [E|_];
      [exfalso; exact (H E)|].
    exact (conj eq_refl (conj H1 H2)).
  - rewrite pointerMoveEvent_pinch. cbn [evCache set_evCache].
    apply replacePointer_length.
  - rewrite pointerUpEvent_evCache, removePointer_length.
    destruct (cached ev (evCache (pinch t))); lia.
  - intros H. rewrite pointerUpEvent_blockPan.
    rewrite pointerUpEvent_evCache in H.
    apply Nat.ltb_lt in H. rewrite H. reflexivity.
  - intros H. rewrite pointerUpEvent_blockPan.
    rewrite pointerUpEvent_evCache in H.
    destruct (Nat.ltb_spec (List.length (removePointer ev (evCache (pinch t)))) 2)
      as [L|_]; [lia|reflexivity].
Qed.

Lemma pointer_cache_has_no_limit_witness :
  let t := pointerDownEvent (finger 1 100 100) (init scenarioA defaultOptions) in
  let down := pointerDownEvent (finger 2 200 300) t in
  blockPan (pinch down) = true /\
  pinchDiffCache (pinch down)
    = getTouchEventsDistance (finger 1 100 100) (finger 2 200 300) /\
  touchEventsCenterCache (pinch down)
    = getTouchEventsCenter (finger 1 100 100) (finger 2 200 300).
Proof.
  cbv zeta.
  destruct (pointer_cache_has_no_limit scenarioA (finger 2 200 300)
              (pointerDownEvent (finger 1 100 100)
                 (init scenarioA defaultOptions)))
    as (_ & _ & H & _).
  exact (H (finger 1 100 100) eq_refl).
Defined.

(** C8, the claim as stated fails: three pointers that go down one after
    the other, none of them released, are all three in the cache. *)
Lemma three_pointers_in_cache :
  let t := pointerRun scenarioA (init scenarioA defaultOptions)
             [pointerdown (finger 1 100 100); pointerdown (finger 2 200 100);
              pointerdown (finger 3 300 100)] in
  evCache (pinch t)
    = [finger 1 100 100; finger 2 200 100; finger 3 300 100] /\
  ~ (List.length (evCache (pinch t)) <= 2)%nat.
Proof.
  cbv zeta. split; [reflexivity|].
  cbn. lia.
Qed.

(** ** The pan step (C10) *)




(** ** The wheel factor (C7) *)




